(** * Wyoming sounding downloader: extraction and normalisation pipeline

    Shallow embedding of [wyoming_sounding_downloader_2025_11_25_v02_LB.py]
    (functions [extract_station_name], [extract_block], [normalize_lines]
    and [parse_profiles]) together with the Python string primitives these
    functions call, followed by the properties stated for them.

    A Python [str] is a sequence of Unicode code points; it is modelled as
    a list of code points ([N]).  Integer results that Python signals with
    [-1] ([str.find]) are kept as [Z]. *)

From Stdlib Require Import String Ascii List ZArith NArith Bool Lia Sorted.
Import ListNotations.

(** ** Python string primitives *)

Definition char := N.
Definition str := list char.

(** An ASCII literal of the source, as a [str]. *)
Definition lit (s : string) : str := map N_of_ascii (list_ascii_of_string s).

Definition LF : char := 10%N.
Definition CR : char := 13%N.
Definition TAB : char := 9%N.
Definition COMMA : char := 44%N.
Definition UNDERSCORE : char := 95%N.

Definition str_eqb (a b : str) : bool :=
  if list_eq_dec N.eq_dec a b then true else false.

(** [str.isspace] on one code point: the characters CPython treats as
    whitespace in [str.strip()] and [str.split()] without argument. *)
Definition isspace (c : char) : bool :=
  ((9 <=? c) && (c <=? 13) || (28 <=? c) && (c <=? 32)
   || (c =? 133) || (c =? 160) || (c =? 5760)
   || (8192 <=? c) && (c <=? 8202)
   || (c =? 8232) || (c =? 8233) || (c =? 8239) || (c =? 8287)
   || (c =? 12288))%N.

Fixpoint lstrip_by (p : char -> bool) (s : str) : str :=
  match s with
  | [] => []
  | c :: s' => if p c then lstrip_by p s' else s
  end.

Definition rstrip_by (p : char -> bool) (s : str) : str :=
  rev (lstrip_by p (rev s)).

Definition strip_by (p : char -> bool) (s : str) : str :=
  rstrip_by p (lstrip_by p s).

(** [s.strip()] *)
Definition strip (s : str) : str := strip_by isspace s.

(** [s.strip(chars)] and [s.rstrip(chars)] *)
Definition mem_char (chars : str) (c : char) : bool :=
  existsb (N.eqb c) chars.
Definition strip_chars (s chars : str) : str := strip_by (mem_char chars) s.
Definition rstrip_chars (s chars : str) : str := rstrip_by (mem_char chars) s.

(** [s.split()]: maximal runs of non-whitespace characters, in order.
    [cur] holds the token being read, most recent character first. *)
Fixpoint split_go (cur : str) (s : str) : list str :=
  match s with
  | [] => match cur with [] => [] | _ => [rev cur] end
  | c :: s' =>
      if isspace c
      then match cur with
           | [] => split_go [] s'
           | _ => rev cur :: split_go [] s'
           end
      else split_go (c :: cur) s'
  end.

Definition split_ws (s : str) : list str := split_go [] s.

(** [s.split(sep)] for a one-character separator: always at least one
    piece, empty pieces kept. *)
Fixpoint split_on (sep : char) (s : str) : list str :=
  match s with
  | [] => [[]]
  | c :: s' =>
      match split_on sep s' with
      | [] => [[c]]
      | p :: ps => if (c =? sep)%N then [] :: p :: ps else (c :: p) :: ps
      end
  end.

(** [sep.join(parts)] *)
Fixpoint join (sep : str) (parts : list str) : str :=
  match parts with
  | [] => []
  | [p] => p
  | p :: ps => p ++ sep ++ join sep ps
  end.

Fixpoint is_prefix (pat s : str) : bool :=
  match pat, s with
  | [], _ => true
  | _ :: _, [] => false
  | a :: pat', b :: s' => (a =? b)%N && is_prefix pat' s'
  end.

(** Leftmost occurrence of [pat] in [s]; [i] is the absolute index of the
    head of [s]; [-1] when there is none. *)
Fixpoint search (pat s : str) (i : Z) : Z :=
  if is_prefix pat s then i
  else match s with
       | [] => (-1)%Z
       | _ :: s' => search pat s' (i + 1)%Z
       end.

(** Python's adjustment of a slice or search bound to [0..len]. *)
Definition adjust_index (len i : Z) : Z :=
  (if i <? 0 then Z.max 0 (i + len) else Z.min i len)%Z.

(** [s.find(pat, start)] *)
Definition find (s pat : str) (start : Z) : Z :=
  let len := Z.of_nat (length s) in
  if (len <? start)%Z then (-1)%Z
  else let st := adjust_index len start in
       search pat (skipn (Z.to_nat st) s) st.

(** [s[a:b]] *)
Definition slice (s : str) (a b : Z) : str :=
  let len := Z.of_nat (length s) in
  let a' := Z.to_nat (adjust_index len a) in
  let b' := Z.to_nat (adjust_index len b) in
  firstn (b' - a') (skipn a' s).

(** [s.replace(old, new)] for a non-empty [old]: occurrences are taken
    left to right and do not overlap.  [skip] counts the characters of
    the current occurrence still to be dropped. *)
Fixpoint replace_go (old new s : str) (skip : nat) : str :=
  match s with
  | [] => []
  | c :: s' =>
      match skip with
      | S k => replace_go old new s' k
      | O => if is_prefix old (c :: s')
             then new ++ replace_go old new s' (length old - 1)
             else c :: replace_go old new s' 0
      end
  end.

Definition replace (s old new : str) : str := replace_go old new s 0.

(** [tokens.index(x)]: position of the first element equal to [x];
    [None] stands for the [ValueError]. *)
Fixpoint index (tokens : list str) (x : str) : option nat :=
  match tokens with
  | [] => None
  | t :: ts => if str_eqb t x then Some 0
               else option_map S (index ts x)
  end.

(** [re.sub(r"[^...]+", repl, s)] for a character class given by its
    complement [keep]: every maximal run of characters outside [keep]
    becomes one [repl]. *)
Fixpoint re_sub_runs (keep : char -> bool) (repl : str) (in_run : bool)
         (s : str) : str :=
  match s with
  | [] => []
  | c :: s' =>
      if keep c then c :: re_sub_runs keep repl false s'
      else if in_run then re_sub_runs keep repl true s'
      else repl ++ re_sub_runs keep repl true s'
  end.

(** ** Errors *)

Inductive exn : Type :=
| RuntimeError (msg : string).

Inductive result (A : Type) : Type :=
| Ok (a : A)
| Raise (e : exn).
Arguments Ok {A} a.
Arguments Raise {A} e.

(** ** Module constants *)

Definition BORDER : str :=
  lit "-----------------------------------------------------------------------------".

Definition START_MARKER : str :=
  BORDER ++ [LF]
  ++ lit "   PRES   HGHT   TEMP   DWPT   RELH   MIXR   DRCT   SKNT   THTA   THTE   THTV" ++ [LF]
  ++ lit "    hPa     m      C      C      %    g/kg    deg   knot     K      K      K " ++ [LF]
  ++ BORDER.

Definition END_MARKER : str :=
  lit "</PRE><H3>Station information and sounding indices</H3><PRE>".

Definition header_not_found : exn :=
  RuntimeError "Could not find the full Wyoming header block.".

Definition end_not_found : exn :=
  RuntimeError "Could not find the station information section end marker.".

(** ** [extract_station_name] *)

(** The character class [A-Za-z0-9_\-] of the sanitising pattern. *)
Definition name_char (c : char) : bool :=
  ((65 <=? c) && (c <=? 90) || (97 <=? c) && (c <=? 122)
   || (48 <=? c) && (c <=? 57) || (c =? 95) || (c =? 45))%N.

(** The search for the heading: [(start_idx, end_idx, offset)]. *)
Definition locate_heading (raw_html : str) : Z * Z * Z :=
  let start_idx := find raw_html (lit "<H2>") 0 in
  let end_idx := (-1)%Z in
  let offset := 4%Z in
  if negb (start_idx =? -1)%Z
  then (start_idx, find raw_html (lit "</H2>") (start_idx + offset), offset)
  else
    let start_idx := find raw_html (lit "<h2>") 0 in
    if negb (start_idx =? -1)%Z
    then (start_idx, find raw_html (lit "</h2>") (start_idx + offset), offset)
    else (start_idx, end_idx, 0%Z).

(** The name candidate built from the decoded, trimmed heading text. *)
Definition name_from_header (header : str) : str :=
  let tokens := split_ws header in
  let obs_idx :=
    match index tokens (lit "Observations") with
    | Some i => i
    | None => length tokens
    end in
  if 3 <=? length tokens
  then
    let name_tokens :=
      if 2 <? obs_idx then firstn (obs_idx - 2) (skipn 2 tokens)
      else skipn 2 tokens in
    match name_tokens with
    | [] => header
    | _ => join [UNDERSCORE] name_tokens
    end
  else header.

(** The final two statements: sanitise, trim underscores, fall back. *)
Definition sanitize (raw_name station_id : str) : str :=
  let name := re_sub_runs name_char [UNDERSCORE] false raw_name in
  match strip_chars name [UNDERSCORE] with
  | [] => station_id
  | name => name
  end.

(** [html_unescape] stands for the library function [html.unescape]. *)
Definition extract_station_name (html_unescape : str -> str)
           (raw_html station_id : str) : str :=
  let '(start_idx, end_idx, offset) := locate_heading raw_html in
  let raw_name :=
    if negb (start_idx =? -1)%Z && negb (end_idx =? -1)%Z
    then
      let header := slice raw_html (start_idx + offset) end_idx in
      let header := strip (html_unescape header) in
      name_from_header header
    else station_id in
  sanitize raw_name station_id.

(** ** [extract_block] *)

Definition normalize_newlines (raw_html : str) : str :=
  replace (replace raw_html [CR; LF] [LF]) [CR] [LF].

Definition is_blank (line : str) : bool :=
  match strip line with [] => true | _ => false end.

(** [while lines and not lines[0].strip(): lines.pop(0)] *)
Fixpoint pop_blank_front (lines : list str) : list str :=
  match lines with
  | [] => []
  | l :: rest => if is_blank l then pop_blank_front rest else lines
  end.

(** [while lines and not lines[-1].strip(): lines.pop()] *)
Definition pop_blank_back (lines : list str) : list str :=
  rev (pop_blank_front (rev lines)).

Definition extract_block (raw_html : str) : result (list str) :=
  let text := normalize_newlines raw_html in
  let start_idx := find text START_MARKER 0 in
  if (start_idx =? -1)%Z then Raise header_not_found
  else
    let data_start := (start_idx + Z.of_nat (length START_MARKER))%Z in
    let end_idx := find text END_MARKER data_start in
    if (end_idx =? -1)%Z then Raise end_not_found
    else
      let sub := slice text data_start end_idx in
      let lines := split_on LF sub in
      Ok (pop_blank_back (pop_blank_front lines)).

(** ** [normalize_lines] *)

(** One iteration of the loop, on the accumulator [out_lines]. *)
Definition normalize_step (sep : str) (out_lines : list str) (line : str)
  : list str :=
  let stripped := rstrip_chars line [LF] in
  match strip stripped with
  | [] => out_lines
  | _ => let parts := split_ws stripped in
         out_lines ++ [join sep parts]
  end.

Definition normalize_lines (lines : list str) (sep : str) : str :=
  let out_lines := fold_left (normalize_step sep) lines [] in
  join [LF] out_lines ++ [LF].

(** ** [parse_profiles] *)

Section Profiles.
(** [F] is the type of floating point numbers and [float s] the result
    of the conversion [float(s)], [None] for a [ValueError]. *)
Variable F : Type.
Variable float : str -> option F.

Definition profile : Type := list F * list F * list F.

Definition parse_step (acc : profile) (line : str) : profile :=
  let '(pressures, heights, temps) := acc in
  let s := strip line in
  match s with
  | [] => acc
  | _ =>
      let parts := split_ws s in
      if length parts <? 3 then acc
      else
        match float (nth 0 parts []) with
        | None => acc
        | Some p =>
            match float (nth 1 parts []) with
            | None => acc
            | Some z =>
                match float (nth 2 parts []) with
                | None => acc
                | Some T => (pressures ++ [p], heights ++ [z], temps ++ [T])
                end
            end
        end
  end.

Definition parse_profiles (lines : list str) : profile :=
  fold_left parse_step lines ([], [], []).
End Profiles.

Arguments parse_step {F} float acc line.
Arguments parse_profiles {F} float lines.

(** ** Specification-level notions used by the statements *)

(** [pat] occurs in [s] at offset [k]. *)
Definition occurs_at (pat s : str) (k : nat) : bool :=
  is_prefix pat (skipn k s).

(** [pat] occurs somewhere in [s]. *)
Definition occurs (pat s : str) : bool :=
  existsb (occurs_at pat s) (seq 0 (S (length s))).

(** The leftmost occurrence of [pat] in [s] is at offset [k]. *)
Definition first_occurrence (pat s : str) (k : nat) : bool :=
  occurs_at pat s k && forallb (fun j => negb (occurs_at pat s j)) (seq 0 k).

(** A list of lines is trimmed: empty, or with non-blank first and last
    line. *)
Definition edges_nonblank (lines : list str) : bool :=
  match lines with
  | [] => true
  | l :: _ => negb (is_blank l) && negb (is_blank (last lines []))
  end.

(** The same document written with CR+LF, and with bare CR, line ends. *)
Definition to_crlf (d : str) : str :=
  flat_map (fun c => if (c =? LF)%N then [CR; LF] else [c]) d.

Definition to_cr (d : str) : str :=
  map (fun c => if (c =? LF)%N then CR else c) d.

(** What one input line contributes to the normalised table, in the
    words of the specification: nothing when it has no token, else its
    tokens joined by the separator. *)
Definition emitted (sep : str) (line : str) : list str :=
  match split_ws line with
  | [] => []
  | tokens => [join sep tokens]
  end.

(** What one input line contributes to the profile, in the words of the
    specification: a triple when the first three tokens exist and all
    convert. *)
Definition line_triple {F : Type} (float : str -> option F) (line : str)
  : list (F * F * F) :=
  match split_ws line with
  | a :: b :: c :: _ =>
      match float a, float b, float c with
      | Some p, Some z, Some t => [(p, z, t)]
      | _, _, _ => []
      end
  | _ => []
  end.

(** [inner] is the inner text of the heading element the resolver
    uses: the first upper-case opening tag with the first upper-case
    closing tag after it, or, when no upper-case opening tag exists, the
    same with lower-case tags. *)
Inductive heading_inner : str -> str -> Prop :=
| heading_upper (pre inner post : str) :
    first_occurrence (lit "<H2>")
      (pre ++ lit "<H2>" ++ inner ++ lit "</H2>" ++ post) (length pre) = true ->
    first_occurrence (lit "</H2>")
      (inner ++ lit "</H2>" ++ post) (length inner) = true ->
    heading_inner (pre ++ lit "<H2>" ++ inner ++ lit "</H2>" ++ post) inner
| heading_lower (pre inner post : str) :
    occurs (lit "<H2>")
      (pre ++ lit "<h2>" ++ inner ++ lit "</h2>" ++ post) = false ->
    first_occurrence (lit "<h2>")
      (pre ++ lit "<h2>" ++ inner ++ lit "</h2>" ++ post) (length pre) = true ->
    first_occurrence (lit "</h2>")
      (inner ++ lit "</h2>" ++ post) (length inner) = true ->
    heading_inner (pre ++ lit "<h2>" ++ inner ++ lit "</h2>" ++ post) inner.

(** The resolver's own test that a heading was located. *)
Definition heading_found (raw_html : str) : bool :=
  let '(start_idx, end_idx, _) := locate_heading raw_html in
  negb (start_idx =? -1)%Z && negb (end_idx =? -1)%Z.

(** A name the sanitising step leaves alone. *)
Definition clean_name (s : str) : bool :=
  forallb name_char s
  && negb (hd 0%N s =? UNDERSCORE)%N && negb (last s 0%N =? UNDERSCORE)%N.

Definition AMP : char := 38%N.

Definition heading_example : str :=
  lit "15420 LRBS Bucuresti Inmh-Banesa Observations at 00Z 02 Nov 2025".

(** A token: a non-empty string without whitespace. *)
Definition token (t : str) : Prop :=
  t <> [] /\ forallb (fun c => negb (isspace c)) t = true.

(** A line is stable when normalising leaves it as it is. *)
Definition stable (sep : str) (o : str) : Prop :=
  emitted sep o = [o] /\ ~ In LF o.

(** The profile [acc] extended by the triples [ts], component by
    component. *)
Definition add_triples (F : Type) (acc : profile F) (ts : list (F * F * F))
  : profile F :=
  let '(pressures, heights, temps) := acc in
  (pressures ++ map (fun t => fst (fst t)) ts,
   heights ++ map (fun t => snd (fst t)) ts,
   temps ++ map (fun t => snd t) ts).

(** ** Sample inputs *)

(** A sounding block with one blank line in front, a blank line between
    two levels, and two blank lines behind. *)
Definition example_lead : list str := [[]].
Definition example_data : list str :=
  [lit " 1000.0    100   15.2   10.1"; [];
   lit "  850.0  /////   12.0   //.//"].
Definition example_trail : list str := [lit "  "; []].

(** The page around it, written with CR+LF line ends. *)
Definition example_document : str :=
  to_crlf (lit "<HTML><PRE>" ++ [LF] ++ START_MARKER
           ++ join [LF] (example_lead ++ example_data ++ example_trail)
           ++ END_MARKER ++ lit "</PRE></HTML>").

(** The same page written with LF line ends. *)
Definition example_document_lf : str :=
  lit "<HTML><PRE>" ++ [LF] ++ START_MARKER
  ++ join [LF] (example_lead ++ example_data ++ example_trail)
  ++ END_MARKER ++ lit "</PRE></HTML>".

(** A page cut off before the end marker. *)
Definition example_truncated : str :=
  lit "<PRE>" ++ START_MARKER ++ [LF] ++ lit " 1000.0    100   15.2".

(** A page with the heading of the specification's example. *)
Definition example_heading_page : str :=
  lit "<HTML><H2>15420 LRBS Bucuresti Inmh-Banesa Observations at 00Z 02 Nov 2025</H2><PRE>".

(** A page whose heading has two tokens, in lower-case tags. *)
Definition example_short_heading_page : str :=
  lit "<html><h2>X Y</h2></html>".

(** An entity decoder for the sample pages, which hold no entity. *)
Definition decode_nothing (s : str) : str := s.

(** A converter for the sample lines: a token that starts with a digit
    converts, to itself. *)
Definition float_sample (s : str) : option str :=
  match s with
  | c :: _ => if ((48 <=? c) && (c <=? 57))%N then Some s else None
  | [] => None
  end.

(** ** Digits and integers *)

(** The two library tables behind [str.isdigit] and [int]: which
    characters are digits, and the decimal value of those [int] reads.
    The laws are the facts about the tables that the properties use:
    a character with a decimal value is a digit; a digit is not
    whitespace; below 128 the digits are ['0'] to ['9'], each with its
    value. *)
Record digit_table : Type := {
  isdigit : char -> bool;
  decimal : char -> option N;
  decimal_isdigit :
    forall c v, decimal c = Some v -> isdigit c = true;
  isdigit_not_space :
    forall c, isdigit c = true -> isspace c = false;
  isdigit_ascii :
    forall c, (c < 128)%N -> isdigit c = ((48 <=? c) && (c <=? 57))%N;
  decimal_ascii :
    forall c, ((48 <=? c) && (c <=? 57))%N = true ->
              decimal c = Some (c - 48)%N
}.

(** [s.isdigit()]: not empty, and every character a digit. *)
Definition str_isdigit (digits : digit_table) (s : str) : bool :=
  match s with
  | [] => false
  | _ => forallb (isdigit digits) s
  end.

(** [int(s)] for a string of digits: the value read left to right, and
    [None], the [ValueError] of [int], when a digit has no decimal
    value. *)
Fixpoint int_acc (digits : digit_table) (s : str) (acc : N) : option N :=
  match s with
  | [] => Some acc
  | c :: s' =>
      match decimal digits c with
      | Some v => int_acc digits s' (10 * acc + v)%N
      | None => None
      end
  end.

Definition int_of_digits (digits : digit_table) (s : str) : option N :=
  int_acc digits s 0%N.

(** The decimal digits of [n], least significant first; [fuel] bounds
    their number. *)
Fixpoint digits_rev (fuel : nat) (n : N) : str :=
  match fuel with
  | O => []
  | S f =>
      (48 + n mod 10)%N
      :: (if (n <? 10)%N then [] else digits_rev f (n / 10)%N)
  end.

(** [str(n)] for a natural number. *)
Definition str_of_int (n : N) : str :=
  rev (digits_rev (S (N.to_nat n)) n).

(** [format(n, "0<width>d")] for a natural number: zeros in front up to
    [width] characters. *)
Definition format_0d (width : nat) (n : N) : str :=
  let s := str_of_int n in
  repeat 48%N (width - length s) ++ s.

(** The value of a string of ASCII digits. *)
Definition value_of_digits (s : str) : N :=
  fold_left (fun acc c => (10 * acc + (c - 48))%N) s 0%N.

Definition ascii_digit (c : char) : bool := ((48 <=? c) && (c <=? 57))%N.

(** ** [build_url] *)

(** The fields of a [datetime] the programs read. *)
Record datetime : Type := {
  dt_year : N;
  dt_month : N;
  dt_day : N;
  dt_hour : N;
  dt_minute : N
}.

Definition BASE_URL : str := lit "http://weather.uwyo.edu/cgi-bin/sounding".

(** [urllib.parse.urlencode] of a dictionary of strings, in insertion
    order; [quote_plus] stands for the library function of that name. *)
Definition urlencode (quote_plus : str -> str) (params : list (str * str))
  : str :=
  join (lit "&")
       (map (fun kv => quote_plus (fst kv) ++ lit "=" ++ quote_plus (snd kv))
            params).

Definition build_url (quote_plus : str -> str) (station_id : str)
           (when : datetime) : str :=
  let params :=
    [(lit "region", lit "europe");
     (lit "TYPE", lit "TEXT:LIST");
     (lit "YEAR", format_0d 4 (dt_year when));
     (lit "MONTH", format_0d 2 (dt_month when));
     (lit "FROM", format_0d 2 (dt_day when) ++ format_0d 2 (dt_hour when));
     (lit "TO", format_0d 2 (dt_day when) ++ format_0d 2 (dt_hour when));
     (lit "STNM", station_id)] in
  BASE_URL ++ lit "?" ++ urlencode quote_plus params.

(** The ranges of the fields of a [datetime]. *)
Definition valid_datetime (w : datetime) : bool :=
  ((1 <=? dt_year w) && (dt_year w <=? 9999)
   && (1 <=? dt_month w) && (dt_month w <=? 12)
   && (1 <=? dt_day w) && (dt_day w <=? 31)
   && (dt_hour w <=? 23) && (dt_minute w <=? 59))%N.

(** ** [parse_date_time] *)

(** The [ValueError]s of [parse_date_time], by the statement that
    raises them; [E] is the type of the errors of [strptime]. *)
Inductive time_error (E : Type) : Type :=
| CouldNotParseDate (date_str : str) (last_err : option E)
| TimeFormat (time_str : str)
| InvalidLiteral (s : str)
| HourNotInRange.
Arguments CouldNotParseDate {E} date_str last_err.
Arguments TimeFormat {E} time_str.
Arguments InvalidLiteral {E} s.
Arguments HourNotInRange {E}.

(** The loop over the date formats: the first format that parses wins;
    [last_err] is the error of the format tried last. *)
Fixpoint try_formats (E : Type) (strptime : str -> str -> E + datetime)
         (date_str : str) (formats : list str) (last_err : option E)
  : option E + datetime :=
  match formats with
  | [] => inl last_err
  | f :: rest =>
      match strptime date_str f with
      | inr d => inr d
      | inl e => try_formats E strptime date_str rest (Some e)
      end
  end.
Arguments try_formats {E} strptime date_str formats last_err.

(** [d.replace(hour=hour, minute=minute)] *)
Definition replace_hour_minute (E : Type) (d : datetime) (hour minute : N)
  : time_error E + datetime :=
  if (hour <=? 23)%N
  then inr {| dt_year := dt_year d; dt_month := dt_month d;
              dt_day := dt_day d; dt_hour := hour; dt_minute := minute |}
  else inl HourNotInRange.
Arguments replace_hour_minute {E} d hour minute.

(** The time string brought to four characters. *)
Definition time_digits (time_str : str) : str :=
  let t := strip (replace time_str (lit ":") []) in
  let t := if length t =? 1 then lit "0" ++ t else t in
  if length t =? 2 then t ++ lit "00" else t.

(** [strptime] stands for [datetime.datetime.strptime]. *)
Definition parse_date_time (E : Type) (strptime : str -> str -> E + datetime)
           (digits : digit_table) (date_str time_str : str)
  : time_error E + datetime :=
  let date_formats := [lit "%Y%m%d"; lit "%Y-%m-%d"; lit "%d.%m.%Y"] in
  match try_formats strptime date_str date_formats None with
  | inl last_err => inl (CouldNotParseDate date_str last_err)
  | inr d =>
      let t := time_digits time_str in
      if negb (length t =? 4) || negb (str_isdigit digits t)
      then inl (TimeFormat time_str)
      else
        match int_of_digits digits (slice t 0 2) with
        | None => inl (InvalidLiteral (slice t 0 2))
        | Some hour =>
            match int_of_digits digits (slice t 2 4) with
            | None => inl (InvalidLiteral (slice t 2 4))
            | Some minute =>
                let minute := 0%N in
                replace_hour_minute d hour minute
            end
        end
  end.
Arguments parse_date_time {E} strptime digits date_str time_str.

(** ** The batch downloader: [parse_date_only], [parse_hours],
    [daterange] *)

(** [date_of] stands for [datetime.date()]. *)
Definition parse_date_only (E D : Type) (strptime : str -> str -> E + datetime)
           (date_of : datetime -> D) (date_str : str) : time_error E + D :=
  let formats := [lit "%Y-%m-%d"; lit "%Y%m%d"; lit "%d.%m.%Y"] in
  match try_formats strptime date_str formats None with
  | inr d => inr (date_of d)
  | inl last_err => inl (CouldNotParseDate date_str last_err)
  end.
Arguments parse_date_only {E D} strptime date_of date_str.

(** The [ValueError]s of [parse_hours] and [daterange]. *)
Inductive hours_error : Type :=
| InvalidHourToken (token : str)
| InvalidHourLiteral (token : str)
| HourOutOfRange (h : N)
| NoValidHours
| EndBeforeStart.

(** [sorted(set(hours))]: the distinct hours in increasing order. *)
Fixpoint insert_hour (h : N) (l : list N) : list N :=
  match l with
  | [] => [h]
  | x :: rest =>
      if (h <? x)%N then h :: l
      else if (h =? x)%N then l
      else x :: insert_hour h rest
  end.

Definition sorted_set (hours : list N) : list N :=
  fold_right insert_hour [] hours.

(** The loop of [parse_hours] over the tokens, on the list [hours]. *)
Fixpoint parse_hours_loop (digits : digit_table) (tokens : list str)
         (hours : list N) : hours_error + list N :=
  match tokens with
  | [] => inr hours
  | token :: rest =>
      let token := strip token in
      match token with
      | [] => parse_hours_loop digits rest hours
      | _ =>
          let token := if length token =? 1 then lit "0" ++ token else token in
          if negb (length token =? 2) || negb (str_isdigit digits token)
          then inl (InvalidHourToken token)
          else
            match int_of_digits digits token with
            | None => inl (InvalidHourLiteral token)
            | Some h =>
                if negb ((0 <=? h) && (h <=? 23))%N
                then inl (HourOutOfRange h)
                else parse_hours_loop digits rest (hours ++ [h])
            end
      end
  end.

Definition parse_hours (digits : digit_table) (hours_str : str)
  : hours_error + list N :=
  match parse_hours_loop digits (split_on COMMA hours_str) [] with
  | inl e => inl e
  | inr [] => inl NoValidHours
  | inr hours => inr (sorted_set hours)
  end.

(** A [datetime.date], by its proleptic Gregorian ordinal
    ([date.toordinal()]): comparison, difference in days and the
    addition of days are those of the ordinals. *)
Definition date : Type := Z.

(** The dates [daterange] yields, in order, or its [ValueError]. *)
Definition daterange (start_date end_date : date) : hours_error + list date :=
  if (end_date <? start_date)%Z then inl EndBeforeStart
  else
    let delta_days := (end_date - start_date)%Z in
    inr (map (fun i => (start_date + Z.of_nat i)%Z)
             (seq 0 (Z.to_nat (delta_days + 1)))).

(** The values of [when] in the nested loops of the batch [main]: for
    every date, every hour, at minute 0. *)
Definition batch_whens (dates : list date) (hours : list N)
  : list (date * N) :=
  flat_map (fun current_date => map (fun hour => (current_date, hour)) hours)
           dates.

(** The hours between the date of ordinal 0, 00:00, and a [when]. *)
Definition when_hours (w : date * N) : Z := (24 * fst w + Z.of_N (snd w))%Z.

(** ** The header written in front of the table ([fetch_sounding]) *)

Definition header_block (sep_char : str) : str :=
  let '(name_line, unit_line) :=
    if str_eqb sep_char (lit ",")
    then (lit "PRES,HGHT,TEMP,DWPT,RELH,MIXR,DRCT,SKNT,THTA,THTE,THTV",
          lit "hPa,m,C,C,%,g/kg,deg,knot,K,K,K")
    else
      let cols := [lit "PRES"; lit "HGHT"; lit "TEMP"; lit "DWPT"; lit "RELH";
                   lit "MIXR"; lit "DRCT"; lit "SKNT"; lit "THTA"; lit "THTE";
                   lit "THTV"] in
      let units := [lit "hPa"; lit "m"; lit "C"; lit "C"; lit "%"; lit "g/kg";
                    lit "deg"; lit "knot"; lit "K"; lit "K"; lit "K"] in
      (join [TAB] cols, join [TAB] units) in
  BORDER ++ [LF] ++ name_line ++ [LF] ++ unit_line ++ [LF] ++ BORDER ++ [LF].

(** The text [fetch_sounding] writes to the file: the header, then the
    normalised table. *)
Definition file_content (lines : list str) (sep_char : str) : str :=
  header_block sep_char ++ normalize_lines lines sep_char.

(** ** Digit tables for the sample inputs *)

Definition latin1_isdigit (c : char) : bool :=
  (ascii_digit c || (c =? 178) || (c =? 179) || (c =? 185))%N.

Definition latin1_decimal (c : char) : option N :=
  if ascii_digit c then Some (c - 48)%N else None.

(** The format test of [parse_date_time] on a time string, in words:
    with the colons removed and the whitespace trimmed, it has one, two
    or four characters, all digits. *)
Definition time_accepted (digits : digit_table) (time_str : str) : bool :=
  let u := strip (replace time_str (lit ":") []) in
  ((length u =? 1) || (length u =? 2) || (length u =? 4))
  && forallb (isdigit digits) u.

(** The three date formats, in the order of [parse_date_time]. *)
Definition date_formats : list str :=
  [lit "%Y%m%d"; lit "%Y-%m-%d"; lit "%d.%m.%Y"].

(** A [strptime] for the sample inputs: it reads ["2025-11-02"] in the
    format ["%Y-%m-%d"], and nothing else. *)
Definition strptime_sample (date_str fmt : str) : unit + datetime :=
  if str_eqb date_str (lit "2025-11-02") && str_eqb fmt (lit "%Y-%m-%d")
  then inr {| dt_year := 2025; dt_month := 11; dt_day := 2;
              dt_hour := 0; dt_minute := 0 |}
  else inl tt.

(** Year, month and day of a timestamp, for [datetime.date()] on the
    sample inputs. *)
Definition date_sample (d : datetime) : N * N * N :=
  (dt_year d, dt_month d, dt_day d).

(** What one token of the hours string contributes, in words: nothing
    when it is blank, else the hour it names (a single character is read
    with a zero in front), or the error it raises. *)
Definition token_hours (digits : digit_table) (token : str)
  : hours_error + list N :=
  match strip token with
  | [] => inr []
  | t =>
      let t := if length t =? 1 then lit "0" ++ t else t in
      if negb (length t =? 2) || negb (str_isdigit digits t)
      then inl (InvalidHourToken t)
      else
        match int_of_digits digits t with
        | None => inl (InvalidHourLiteral t)
        | Some h =>
            if (h <=? 23)%N then inr [h] else inl (HourOutOfRange h)
        end
  end.

(** The hours of a token that raises no error. *)
Definition token_values (digits : digit_table) (token : str) : list N :=
  match token_hours digits token with
  | inr hs => hs
  | inl _ => []
  end.

Definition token_ok (digits : digit_table) (token : str) : Prop :=
  exists hs : list N, token_hours digits token = inr hs.

(** The timestamp 2025-11-02 12:00. *)
Definition example_when : datetime :=
  {| dt_year := 2025; dt_month := 11; dt_day := 2;
     dt_hour := 12; dt_minute := 0 |}.

(** * Properties *)

(** ** Trimming *)

Section Trimming.
Variable p : char -> bool.

Lemma lstrip_by_nil_iff (s : str) :
  lstrip_by p s = [] <-> forallb p s = true.
Proof.
  induction s as [|c s IH]; simpl.
  - tauto.
  - destruct (p c); simpl; [exact IH|].
    split; discriminate.
Qed.

Lemma lstrip_by_all (s : str) :
  forallb p s = true -> lstrip_by p s = [].
Proof. apply lstrip_by_nil_iff. Qed.

Lemma lstrip_by_app_all (w s : str) :
  forallb p w = true -> lstrip_by p (w ++ s) = lstrip_by p s.
Proof.
  induction w as [|c w IH]; simpl; [reflexivity|].
  destruct (p c); simpl; [exact IH | discriminate].
Qed.

Lemma lstrip_by_head (c : char) (s : str) :
  p c = false -> lstrip_by p (c :: s) = c :: s.
Proof. intros H; simpl; now rewrite H. Qed.

(** A string is its left-trimmed part preceded by trimmed characters. *)
Lemma lstrip_by_decomp (s : str) :
  exists w, s = w ++ lstrip_by p s /\ forallb p w = true.
Proof.
  induction s as [|c s [w [E W]]]; simpl.
  - exists []; auto.
  - destruct (p c) eqn:Pc.
    + exists (c :: w); simpl. rewrite Pc, W. split; [now f_equal | reflexivity].
    + exists []; auto.
Qed.

Lemma forallb_rev (s : str) : forallb p (rev s) = forallb p s.
Proof.
  induction s as [|c s IH]; simpl; [reflexivity|].
  rewrite forallb_app, IH; simpl.
  destruct (p c), (forallb p s); reflexivity.
Qed.

Lemma rstrip_by_nil_iff (s : str) :
  rstrip_by p s = [] <-> forallb p s = true.
Proof.
  unfold rstrip_by. rewrite <- forallb_rev, <- lstrip_by_nil_iff.
  split; intros H.
  - apply (f_equal (@rev char)) in H. now rewrite rev_involutive in H.
  - now rewrite H.
Qed.

Lemma rstrip_by_decomp (s : str) :
  exists w, s = rstrip_by p s ++ w /\ forallb p w = true.
Proof.
  destruct (lstrip_by_decomp (rev s)) as [w [E W]].
  exists (rev w). split.
  - unfold rstrip_by. rewrite <- rev_app_distr, <- E.
    now rewrite rev_involutive.
  - now rewrite forallb_rev.
Qed.

Lemma rstrip_by_app_all (s w : str) :
  forallb p w = true -> rstrip_by p (s ++ w) = rstrip_by p s.
Proof.
  intros W. unfold rstrip_by. rewrite rev_app_distr.
  rewrite lstrip_by_app_all; [reflexivity | now rewrite forallb_rev].
Qed.

Lemma rstrip_by_last (s : str) (c : char) :
  p c = false -> rstrip_by p (s ++ [c]) = s ++ [c].
Proof.
  intros H. unfold rstrip_by. rewrite rev_app_distr. simpl.
  rewrite H. simpl. now rewrite rev_involutive.
Qed.

Lemma strip_by_nil_iff (s : str) :
  strip_by p s = [] <-> forallb p s = true.
Proof.
  unfold strip_by. rewrite rstrip_by_nil_iff.
  destruct (lstrip_by_decomp s) as [w [E W]].
  split; intros H.
  - rewrite E, forallb_app, W, H. reflexivity.
  - rewrite (lstrip_by_all _ H). reflexivity.
Qed.
End Trimming.

Lemma is_blank_spec (line : str) : is_blank line = forallb isspace line.
Proof.
  unfold is_blank, strip.
  destruct (strip_by isspace line) eqn:E.
  - symmetry. now apply strip_by_nil_iff.
  - destruct (forallb isspace line) eqn:A; [|reflexivity].
    apply strip_by_nil_iff in A. congruence.
Qed.

(** ** Whitespace splitting *)

Lemma split_go_nil (cur : str) :
  split_go cur [] = match cur with [] => [] | _ => [rev cur] end.
Proof. reflexivity. Qed.

Lemma split_go_space (cur : str) (c : char) (s : str) :
  isspace c = true ->
  split_go cur (c :: s) =
  match cur with [] => split_go [] s | _ => rev cur :: split_go [] s end.
Proof. intros H; simpl; now rewrite H. Qed.

Lemma split_go_all_space (cur w : str) :
  forallb isspace w = true -> split_go cur w = split_go cur [].
Proof.
  revert cur; induction w as [|c w IH]; intros cur H; [reflexivity|].
  simpl in H. apply andb_true_iff in H as [Hc Hw].
  rewrite split_go_space by assumption.
  rewrite (IH [] Hw). destruct cur; reflexivity.
Qed.

Lemma split_go_app_space (cur s w : str) :
  forallb isspace w = true -> split_go cur (s ++ w) = split_go cur s.
Proof.
  intros W. revert cur; induction s as [|c s IH]; intros cur; simpl.
  - now apply split_go_all_space.
  - destruct (isspace c); [destruct cur|]; now rewrite IH.
Qed.

Lemma split_go_space_app (w s : str) :
  forallb isspace w = true -> split_go [] (w ++ s) = split_go [] s.
Proof.
  induction w as [|c w IH]; simpl; [reflexivity|].
  intros H. apply andb_true_iff in H as [Hc Hw].
  rewrite Hc. now apply IH.
Qed.

(** Reading a run of non-whitespace characters extends the current
    token. *)
Lemma split_go_run (cur t s : str) :
  forallb (fun c => negb (isspace c)) t = true ->
  split_go cur (t ++ s) = split_go (rev t ++ cur) s.
Proof.
  revert cur; induction t as [|c t IH]; intros cur H; simpl; [reflexivity|].
  simpl in H. apply andb_true_iff in H as [Hc Ht].
  apply negb_true_iff in Hc. rewrite Hc, (IH _ Ht).
  now rewrite <- app_assoc.
Qed.

Lemma split_ws_token_sep (t : str) (c : char) (s : str) :
  token t -> isspace c = true ->
  split_ws (t ++ c :: s) = t :: split_ws s.
Proof.
  intros [Hne Ht] Hc. unfold split_ws.
  rewrite split_go_run by assumption. rewrite app_nil_r.
  rewrite split_go_space by assumption.
  destruct (rev t) eqn:E.
  - apply (f_equal (@rev char)) in E. rewrite rev_involutive in E.
    simpl in E. contradiction.
  - rewrite <- E, rev_involutive. reflexivity.
Qed.

Lemma split_ws_token (t : str) : token t -> split_ws t = [t].
Proof.
  intros [Hne Ht]. unfold split_ws.
  rewrite <- (app_nil_r t) at 1.
  rewrite split_go_run by assumption. rewrite app_nil_r, split_go_nil.
  destruct (rev t) eqn:E.
  - apply (f_equal (@rev char)) in E. rewrite rev_involutive in E.
    simpl in E. contradiction.
  - rewrite <- E, rev_involutive. reflexivity.
Qed.

Lemma split_ws_nil_iff (s : str) :
  split_ws s = [] <-> forallb isspace s = true.
Proof.
  unfold split_ws. split.
  - induction s as [|c s IH]; simpl; [reflexivity|].
    destruct (isspace c) eqn:Hc; simpl; [exact IH|].
    intros H. exfalso.
    assert (G : forall cur s', cur <> [] -> split_go cur s' <> []).
    { intros cur s'; revert cur; induction s' as [|d s' IH']; intros cur Hcur.
      - simpl. destruct cur; [contradiction | discriminate].
      - simpl. destruct (isspace d).
        + destruct cur; [contradiction | discriminate].
        + apply IH'. discriminate. }
    apply (G [c] s); [discriminate | exact H].
  - intros H. now rewrite split_go_all_space.
Qed.

Lemma split_ws_lstrip (s : str) : split_ws (lstrip_by isspace s) = split_ws s.
Proof.
  destruct (lstrip_by_decomp isspace s) as [w [E W]].
  rewrite E at 2. unfold split_ws. now rewrite split_go_space_app.
Qed.

(** Trailing characters that are whitespace do not change the tokens. *)
Lemma split_ws_rstrip_by (p : char -> bool) (s : str) :
  (forall c, p c = true -> isspace c = true) ->
  split_ws (rstrip_by p s) = split_ws s.
Proof.
  intros Hp. destruct (rstrip_by_decomp p s) as [w [E W]].
  rewrite E at 2. unfold split_ws. rewrite split_go_app_space; [reflexivity|].
  apply forallb_forall. intros c Hc. apply Hp.
  rewrite forallb_forall in W. now apply W.
Qed.

Lemma split_ws_strip (s : str) : split_ws (strip s) = split_ws s.
Proof.
  unfold strip, strip_by.
  rewrite split_ws_rstrip_by by auto. apply split_ws_lstrip.
Qed.

Lemma strip_nil_iff_no_token (s : str) : strip s = [] <-> split_ws s = [].
Proof.
  unfold strip. rewrite strip_by_nil_iff, split_ws_nil_iff. tauto.
Qed.

Lemma mem_char_LF_space (c : char) : mem_char [LF] c = true -> isspace c = true.
Proof.
  unfold mem_char; simpl. rewrite orb_false_r. intros H.
  apply N.eqb_eq in H. now subst.
Qed.

(** Every piece returned by the splitter is a token. *)
Lemma split_go_tokens (cur s : str) :
  forallb (fun c => negb (isspace c)) cur = true ->
  Forall token (split_go cur s).
Proof.
  revert cur; induction s as [|c s IH]; intros cur Hcur; simpl.
  - destruct cur as [|d cur]; constructor; [|constructor].
    split.
    + intros E. apply (f_equal (@rev char)) in E.
      rewrite rev_involutive in E. discriminate.
    + now rewrite forallb_rev.
  - destruct (isspace c) eqn:Hc.
    + destruct cur as [|d cur]; [now apply IH|].
      constructor; [|now apply IH].
      split.
      * intros E. apply (f_equal (@rev char)) in E.
        rewrite rev_involutive in E. discriminate.
      * now rewrite forallb_rev.
    + apply IH. simpl. now rewrite Hc.
Qed.

Lemma split_ws_tokens (s : str) : Forall token (split_ws s).
Proof. now apply split_go_tokens. Qed.

(** ** Splitting on a separator and joining *)

Lemma split_on_no_sep (sep : char) (p : str) :
  ~ In sep p -> split_on sep p = [p].
Proof.
  induction p as [|c p IH]; intros H; simpl; [reflexivity|].
  rewrite IH by (intros G; apply H; now right).
  destruct (N.eqb_spec c sep) as [E|E]; [|reflexivity].
  exfalso; apply H; now left.
Qed.

Lemma split_on_app_sep (sep : char) (p s : str) :
  ~ In sep p -> split_on sep (p ++ sep :: s) = p :: split_on sep s.
Proof.
  induction p as [|c p IH]; intros H; simpl.
  - rewrite N.eqb_refl. destruct (split_on sep s) eqn:E; [|reflexivity].
    destruct s; simpl in E; [discriminate|].
    destruct (split_on sep s); [discriminate|].
    destruct (_ =? _)%N; discriminate.
  - rewrite IH by (intros G; apply H; now right).
    destruct (N.eqb_spec c sep) as [E|E]; [|reflexivity].
    exfalso; apply H; now left.
Qed.

Lemma split_on_join (sep : char) (ls : list str) :
  ls <> [] -> Forall (fun l => ~ In sep l) ls ->
  split_on sep (join [sep] ls) = ls.
Proof.
  induction ls as [|l ls IH]; intros Hne Hall; [contradiction|].
  inversion Hall as [|? ? Hl Hls]; subst.
  destruct ls as [|l' ls].
  - simpl. now apply split_on_no_sep.
  - change (join [sep] (l :: l' :: ls)) with (l ++ sep :: join [sep] (l' :: ls)).
    rewrite split_on_app_sep by assumption.
    f_equal. apply IH; [discriminate | assumption].
Qed.

Lemma split_on_join_newline (sep : char) (ls : list str) :
  ls <> [] -> Forall (fun l => ~ In sep l) ls ->
  split_on sep (join [sep] ls ++ [sep]) = ls ++ [[]].
Proof.
  induction ls as [|l ls IH]; intros Hne Hall; [contradiction|].
  inversion Hall as [|? ? Hl Hls]; subst.
  destruct ls as [|l' ls].
  - simpl join. now rewrite split_on_app_sep.
  - change (join [sep] (l :: l' :: ls) ++ [sep])
      with ((l ++ sep :: join [sep] (l' :: ls)) ++ [sep]).
    rewrite <- app_assoc. simpl app at 2.
    rewrite split_on_app_sep by assumption.
    simpl. f_equal. apply IH; [discriminate | assumption].
Qed.

Lemma forallb_join (q : char -> bool) (sep : str) (ls : list str) :
  forallb q sep = true -> Forall (fun l => forallb q l = true) ls ->
  forallb q (join sep ls) = true.
Proof.
  intros Hsep. induction 1 as [|l ls Hl Hls IH]; [reflexivity|].
  destruct ls as [|l' ls]; [exact Hl|].
  change (join sep (l :: l' :: ls)) with (l ++ sep ++ join sep (l' :: ls)).
  now rewrite !forallb_app, Hl, Hsep, IH.
Qed.

Lemma join_nonempty (sep : str) (l : str) (ls : list str) :
  l <> [] -> join sep (l :: ls) <> [].
Proof.
  intros H. destruct ls; simpl; [exact H|].
  destruct l; [contradiction | discriminate].
Qed.

Lemma split_ws_join_space (c : char) (ts : list str) :
  isspace c = true -> Forall token ts -> split_ws (join [c] ts) = ts.
Proof.
  intros Hc. induction 1 as [|t ts Ht Hts IH]; [reflexivity|].
  destruct ts as [|t' ts].
  - now apply split_ws_token.
  - change (join [c] (t :: t' :: ts)) with (t ++ c :: join [c] (t' :: ts)).
    rewrite split_ws_token_sep by assumption. now rewrite IH.
Qed.

(** ** [normalize_lines] *)

Lemma normalize_step_emitted (sep : str) (out_lines : list str) (line : str) :
  normalize_step sep out_lines line = out_lines ++ emitted sep line.
Proof.
  unfold normalize_step, emitted, rstrip_chars.
  rewrite (split_ws_rstrip_by _ line mem_char_LF_space).
  destruct (strip (rstrip_by (mem_char [LF]) line)) eqn:E.
  - apply strip_nil_iff_no_token in E.
    rewrite (split_ws_rstrip_by _ line mem_char_LF_space) in E.
    rewrite E. now rewrite app_nil_r.
  - destruct (split_ws line) eqn:T; [|reflexivity].
    rewrite <- (split_ws_rstrip_by _ line mem_char_LF_space) in T.
    apply strip_nil_iff_no_token in T. congruence.
Qed.

Lemma normalize_loop_emitted (sep : str) (lines out_lines : list str) :
  fold_left (normalize_step sep) lines out_lines
  = out_lines ++ flat_map (emitted sep) lines.
Proof.
  revert out_lines; induction lines as [|l lines IH]; intros out_lines; simpl.
  - now rewrite app_nil_r.
  - rewrite IH, normalize_step_emitted. now rewrite <- app_assoc.
Qed.

Lemma normalize_lines_spec (lines : list str) (sep : str) :
  normalize_lines lines sep = join [LF] (flat_map (emitted sep) lines) ++ [LF].
Proof. unfold normalize_lines. now rewrite normalize_loop_emitted. Qed.

Lemma emitted_blank (sep line : str) :
  is_blank line = true -> emitted sep line = [].
Proof.
  rewrite is_blank_spec. intros H. unfold emitted.
  apply split_ws_nil_iff in H. now rewrite H.
Qed.

Lemma flat_map_emitted_blank (sep : str) (lines : list str) :
  forallb is_blank lines = true -> flat_map (emitted sep) lines = [].
Proof.
  induction lines as [|l lines IH]; simpl; [reflexivity|].
  intros H. apply andb_true_iff in H as [Hl Hr].
  now rewrite emitted_blank, IH.
Qed.

Lemma not_space_not_LF (t : str) :
  forallb (fun c => negb (isspace c)) t = true ->
  forallb (fun c => negb (c =? LF)%N) t = true.
Proof.
  intros H. apply forallb_forall. intros c Hc.
  rewrite forallb_forall in H. specialize (H c Hc).
  destruct (N.eqb_spec c LF) as [E|E]; [subst; discriminate | reflexivity].
Qed.

Lemma forallb_neq_not_In (x : char) (s : str) :
  forallb (fun c => negb (c =? x)%N) s = true -> ~ In x s.
Proof.
  intros H G. rewrite forallb_forall in H. specialize (H x G).
  now rewrite N.eqb_refl in H.
Qed.

Lemma joined_tokens_stable (sep : str) (t : str) (ts : list str) :
  sep = [COMMA] \/ sep = [TAB] -> Forall token (t :: ts) ->
  stable sep (join sep (t :: ts)).
Proof.
  intros Hsep Htok. split.
  - unfold emitted. destruct Hsep as [-> | ->].
    + rewrite split_ws_token; [reflexivity|].
      split.
      * apply join_nonempty. inversion Htok as [|? ? [Hne _] _]. exact Hne.
      * apply forallb_join; [reflexivity|].
        eapply Forall_impl; [|exact Htok]. now intros a [_ Ha].
    + rewrite split_ws_join_space by (assumption || reflexivity).
      reflexivity.
  - apply forallb_neq_not_In. apply forallb_join.
    + destruct Hsep as [-> | ->]; reflexivity.
    + eapply Forall_impl; [|exact Htok].
      intros a [_ Ha]. now apply not_space_not_LF.
Qed.

Lemma emitted_stable (sep line : str) :
  sep = [COMMA] \/ sep = [TAB] -> Forall (stable sep) (emitted sep line).
Proof.
  intros Hsep. unfold emitted.
  pose proof (split_ws_tokens line) as Htok.
  destruct (split_ws line) as [|t ts]; constructor; [|constructor].
  now apply joined_tokens_stable.
Qed.

Lemma flat_map_emitted_stable (sep : str) (lines : list str) :
  sep = [COMMA] \/ sep = [TAB] ->
  Forall (stable sep) (flat_map (emitted sep) lines).
Proof.
  intros Hsep. induction lines as [|l lines IH]; simpl; [constructor|].
  apply Forall_app. split; [now apply emitted_stable | exact IH].
Qed.

Lemma flat_map_emitted_fixed (sep : str) (outs : list str) :
  Forall (stable sep) outs -> flat_map (emitted sep) outs = outs.
Proof.
  induction 1 as [|o outs [Ho _] _ IH]; simpl; [reflexivity|].
  now rewrite Ho, IH.
Qed.

(** ** [parse_profiles] *)

Section ProfileLemmas.
Variable F : Type.
Variable float : str -> option F.

Lemma parse_step_triple (acc : profile F) (line : str) :
  parse_step float acc line = add_triples F acc (line_triple float line).
Proof.
  destruct acc as [[ps hs] ts]. unfold parse_step, line_triple.
  destruct (strip line) eqn:E.
  - apply strip_nil_iff_no_token in E. rewrite E. simpl.
    now rewrite !app_nil_r.
  - rewrite <- E, split_ws_strip.
    destruct (split_ws line) as [|t0 [|t1 [|t2 rest]]]; simpl;
      try now rewrite !app_nil_r.
    destruct (float t0); [|simpl; now rewrite !app_nil_r].
    destruct (float t1); [|simpl; now rewrite !app_nil_r].
    destruct (float t2); [|simpl; now rewrite !app_nil_r].
    reflexivity.
Qed.

Lemma add_triples_app (acc : profile F) (xs ys : list (F * F * F)) :
  add_triples F (add_triples F acc xs) ys = add_triples F acc (xs ++ ys).
Proof.
  destruct acc as [[ps hs] ts]. simpl.
  now rewrite !map_app, !app_assoc.
Qed.

Lemma parse_loop_triples (lines : list str) (acc : profile F) :
  fold_left (parse_step float) lines acc
  = add_triples F acc (flat_map (line_triple float) lines).
Proof.
  revert acc; induction lines as [|l lines IH]; intros acc; simpl.
  - destruct acc as [[ps hs] ts]. simpl. now rewrite !app_nil_r.
  - now rewrite IH, parse_step_triple, add_triples_app.
Qed.
End ProfileLemmas.

(** ** Searching and slicing *)

Lemma first_occurrence_spec (pat s : str) (k : nat) :
  first_occurrence pat s k = true <->
  occurs_at pat s k = true /\ forall j, j < k -> occurs_at pat s j = false.
Proof.
  unfold first_occurrence. rewrite andb_true_iff, forallb_forall.
  split; intros [H1 H2]; split; trivial.
  - intros j Hj. apply negb_true_iff. apply H2. apply in_seq. lia.
  - intros j Hj. apply in_seq in Hj. apply negb_true_iff. apply H2. lia.
Qed.

Lemma occurs_false_spec (pat s : str) :
  occurs pat s = false <->
  forall k, k <= length s -> occurs_at pat s k = false.
Proof.
  unfold occurs. split.
  - intros H k Hk. destruct (occurs_at pat s k) eqn:E; [|reflexivity].
    assert (G : existsb (occurs_at pat s) (seq 0 (S (length s))) = true).
    { apply existsb_exists. exists k. split; [apply in_seq; lia | exact E]. }
    congruence.
  - intros H. destruct (existsb _ _) eqn:E; [|reflexivity].
    apply existsb_exists in E as [k [Hk E]]. apply in_seq in Hk.
    rewrite H in E by lia. discriminate.
Qed.

Lemma search_first (pat : str) (k : nat) :
  forall (s : str) (i : Z),
    first_occurrence pat s k = true -> search pat s i = (i + Z.of_nat k)%Z.
Proof.
  induction k as [|k IH]; intros s i H;
    apply first_occurrence_spec in H as [Hk Hlt].
  - unfold occurs_at in Hk. simpl in Hk.
    destruct s; simpl; rewrite Hk; lia.
  - pose proof (Hlt 0 (Nat.lt_0_succ k)) as H0.
    unfold occurs_at in H0, Hk. simpl in H0.
    destruct s as [|c s].
    + simpl in Hk. congruence.
    + simpl search. rewrite H0. rewrite IH; [lia|].
      apply first_occurrence_spec. split; [exact Hk|].
      intros j Hj. apply (Hlt (S j)). lia.
Qed.

Lemma search_none (pat s : str) (i : Z) :
  occurs pat s = false -> search pat s i = (-1)%Z.
Proof.
  revert i; induction s as [|c s IH]; intros i H;
    pose proof (proj1 (occurs_false_spec pat _) H) as G.
  - specialize (G 0 (Nat.le_refl _)). unfold occurs_at in G. simpl in G.
    simpl. now rewrite G.
  - pose proof (G 0 (Nat.le_0_l _)) as G0. unfold occurs_at in G0.
    simpl in G0. simpl search. rewrite G0. apply IH.
    apply occurs_false_spec. intros k Hk.
    apply (G (S k)). simpl. lia.
Qed.

Lemma adjust_index_in_range (len i : Z) :
  (0 <= i <= len)%Z -> adjust_index len i = i.
Proof. intros H. unfold adjust_index. destruct (Z.ltb_spec i 0); lia. Qed.

Lemma find_at_offset (pre rest pat : str) :
  find (pre ++ rest) pat (Z.of_nat (length pre))
  = search pat rest (Z.of_nat (length pre)).
Proof.
  unfold find. rewrite length_app.
  destruct (Z.ltb_spec (Z.of_nat (length pre + length rest))
              (Z.of_nat (length pre))); [lia|].
  rewrite adjust_index_in_range by lia.
  rewrite Nat2Z.id, skipn_app, skipn_all, Nat.sub_diag. reflexivity.
Qed.

Lemma find_first (pre rest pat : str) (k : nat) :
  first_occurrence pat rest k = true ->
  find (pre ++ rest) pat (Z.of_nat (length pre)) = Z.of_nat (length pre + k).
Proof.
  intros H. rewrite find_at_offset. rewrite search_first with (k := k); [lia | exact H].
Qed.

Lemma find_none (pre rest pat : str) :
  occurs pat rest = false ->
  find (pre ++ rest) pat (Z.of_nat (length pre)) = (-1)%Z.
Proof. intros H. rewrite find_at_offset. now apply search_none. Qed.

Lemma slice_middle (pre mid post : str) :
  slice (pre ++ mid ++ post)
        (Z.of_nat (length pre)) (Z.of_nat (length pre + length mid)) = mid.
Proof.
  unfold slice. rewrite !length_app.
  rewrite !adjust_index_in_range by lia.
  rewrite !Nat2Z.id, skipn_app, skipn_all, Nat.sub_diag. simpl.
  replace (length pre + length mid - length pre) with (length mid) by lia.
  rewrite firstn_app, firstn_all, Nat.sub_diag. simpl. apply app_nil_r.
Qed.

(** ** Line-ending normalisation *)

Lemma mem_char_cons (c : char) (s : str) (x : char) :
  mem_char (c :: s) x = (x =? c)%N || mem_char s x.
Proof. reflexivity. Qed.

Lemma replace_go_no_head (old new s : str) (a : char) (old' : str) :
  old = a :: old' -> mem_char s a = false ->
  replace_go old new s 0 = s.
Proof.
  intros -> . induction s as [|c s IH]; intros H; simpl; [reflexivity|].
  unfold mem_char in H. simpl in H. apply orb_false_iff in H as [Hc Hs].
  rewrite Hc. simpl. f_equal. now apply IH.
Qed.

Lemma replace_no_CR (s old' new : str) :
  mem_char s CR = false -> replace s (CR :: old') new = s.
Proof. intros H. unfold replace. now apply (replace_go_no_head (CR :: old') new s CR old'). Qed.

Lemma normalize_newlines_no_CR (d : str) :
  mem_char d CR = false -> normalize_newlines d = d.
Proof.
  intros H. unfold normalize_newlines.
  rewrite (replace_no_CR d [LF] [LF] H). exact (replace_no_CR d [] [LF] H).
Qed.

Lemma replace_crlf_to_crlf (d : str) :
  mem_char d CR = false -> replace (to_crlf d) [CR; LF] [LF] = d.
Proof.
  unfold replace. induction d as [|c d IH]; intros H; [reflexivity|].
  unfold mem_char in H. simpl in H. apply orb_false_iff in H as [Hc Hd].
  simpl to_crlf. destruct (N.eqb_spec c LF) as [->|Hne].
  - simpl. f_equal. now apply IH.
  - simpl. rewrite Hc. simpl. f_equal. now apply IH.
Qed.

Lemma mem_char_to_cr_LF (d : str) : mem_char (to_cr d) LF = false.
Proof.
  induction d as [|c d IH]; [reflexivity|].
  cbn [to_cr map]. rewrite mem_char_cons.
  change (map (fun c0 => if (c0 =? LF)%N then CR else c0) d) with (to_cr d).
  rewrite IH, orb_false_r.
  destruct (N.eqb_spec c LF) as [->|Hne]; [reflexivity|].
  apply N.eqb_neq. congruence.
Qed.

Lemma replace_crlf_no_LF (s : str) :
  mem_char s LF = false -> replace s [CR; LF] [LF] = s.
Proof.
  unfold replace. induction s as [|c s IH]; intros H; [reflexivity|].
  unfold mem_char in H. simpl in H. apply orb_false_iff in H as [Hc Hs].
  simpl. destruct s as [|c' s'].
  - rewrite andb_false_r. reflexivity.
  - unfold mem_char in Hs. simpl in Hs. apply orb_false_iff in Hs as [Hc' Hs'].
    rewrite Hc'. simpl. rewrite andb_false_r. f_equal.
    apply IH. unfold mem_char. simpl. now rewrite Hc', Hs'.
Qed.

Lemma replace_cr_to_cr (d : str) :
  mem_char d CR = false -> replace (to_cr d) [CR] [LF] = d.
Proof.
  unfold replace. induction d as [|c d IH]; intros H; [reflexivity|].
  unfold mem_char in H. simpl in H. apply orb_false_iff in H as [Hc Hd].
  simpl to_cr. destruct (N.eqb_spec c LF) as [->|Hne].
  - simpl. f_equal. now apply IH.
  - simpl. rewrite Hc. simpl. f_equal. now apply IH.
Qed.

Lemma normalize_newlines_to_crlf (d : str) :
  mem_char d CR = false -> normalize_newlines (to_crlf d) = d.
Proof.
  intros H. unfold normalize_newlines.
  rewrite replace_crlf_to_crlf by assumption. now apply replace_no_CR.
Qed.

Lemma normalize_newlines_to_cr (d : str) :
  mem_char d CR = false -> normalize_newlines (to_cr d) = d.
Proof.
  intros H. unfold normalize_newlines.
  rewrite replace_crlf_no_LF by apply mem_char_to_cr_LF.
  now apply replace_cr_to_cr.
Qed.

(** ** Trimming blank lines at the edges *)

Lemma pop_blank_front_app_blank (lead rest : list str) :
  forallb is_blank lead = true ->
  pop_blank_front (lead ++ rest) = pop_blank_front rest.
Proof.
  induction lead as [|l lead IH]; simpl; [reflexivity|].
  intros H. apply andb_true_iff in H as [Hl Hr]. rewrite Hl. now apply IH.
Qed.

Lemma pop_blank_front_all_blank (ls : list str) :
  forallb is_blank ls = true -> pop_blank_front ls = [].
Proof.
  intros H. rewrite <- (app_nil_r ls). now rewrite pop_blank_front_app_blank.
Qed.

Lemma forallb_rev_lines (q : str -> bool) (ls : list str) :
  forallb q ls = true -> forallb q (rev ls) = true.
Proof.
  rewrite !forallb_forall. intros H x Hx. apply H. now apply in_rev.
Qed.

Lemma trim_lines (lead data trail : list str) :
  forallb is_blank lead = true -> forallb is_blank trail = true ->
  edges_nonblank data = true ->
  pop_blank_back (pop_blank_front (lead ++ data ++ trail)) = data.
Proof.
  intros Hlead Htrail Hdata.
  rewrite pop_blank_front_app_blank by assumption.
  destruct data as [|l data].
  - simpl. now rewrite pop_blank_front_all_blank.
  - unfold edges_nonblank in Hdata.
    apply andb_true_iff in Hdata as [Hfirst Hlast].
    apply negb_true_iff in Hfirst, Hlast.
    assert (Hfront : pop_blank_front ((l :: data) ++ trail)
                     = (l :: data) ++ trail).
    { simpl. now rewrite Hfirst. }
    rewrite Hfront. clear Hfront Hfirst.
    assert (Hne : l :: data <> []) by discriminate.
    destruct (exists_last Hne) as [init [x Ex]].
    rewrite Ex in *. rewrite last_last in Hlast.
    unfold pop_blank_back. rewrite rev_app_distr.
    rewrite pop_blank_front_app_blank by now apply forallb_rev_lines.
    rewrite rev_app_distr. simpl. rewrite Hlast. simpl.
    now rewrite rev_involutive.
Qed.

(** ** [extract_block] *)

Lemma find_start_marker (text pre : str) :
  first_occurrence START_MARKER text (length pre) = true ->
  find text START_MARKER 0 = Z.of_nat (length pre).
Proof. intros H. exact (find_first [] text START_MARKER (length pre) H). Qed.

Lemma extract_block_located (doc pre body post : str) :
  normalize_newlines doc = pre ++ START_MARKER ++ body ++ END_MARKER ++ post ->
  first_occurrence START_MARKER (normalize_newlines doc) (length pre) = true ->
  first_occurrence END_MARKER (body ++ END_MARKER ++ post) (length body) = true ->
  extract_block doc = Ok (pop_blank_back (pop_blank_front (split_on LF body))).
Proof.
  intros E H1 H2. unfold extract_block. cbv zeta.
  rewrite E in H1 |- *.
  rewrite (find_start_marker _ _ H1).
  destruct (Z.eqb_spec (Z.of_nat (length pre)) (-1)) as [Hneg|_]; [lia|].
  rewrite <- Nat2Z.inj_add, <- length_app.
  rewrite (app_assoc pre START_MARKER).
  rewrite (find_first _ _ _ _ H2).
  destruct (Z.eqb_spec (Z.of_nat (length (pre ++ START_MARKER) + length body))
              (-1)) as [Hneg|_]; [lia|].
  rewrite slice_middle. reflexivity.
Qed.

Lemma extract_block_no_header (doc : str) :
  occurs START_MARKER (normalize_newlines doc) = false ->
  extract_block doc = Raise header_not_found.
Proof.
  intros H. unfold extract_block. cbv zeta.
  assert (E : find (normalize_newlines doc) START_MARKER 0 = (-1)%Z)
    by exact (find_none [] _ START_MARKER H).
  rewrite E. reflexivity.
Qed.

Lemma extract_block_no_end (doc pre rest : str) :
  normalize_newlines doc = pre ++ START_MARKER ++ rest ->
  first_occurrence START_MARKER (normalize_newlines doc) (length pre) = true ->
  occurs END_MARKER rest = false ->
  extract_block doc = Raise end_not_found.
Proof.
  intros E H1 H2. unfold extract_block. cbv zeta.
  rewrite E in H1 |- *.
  rewrite (find_start_marker _ _ H1).
  destruct (Z.eqb_spec (Z.of_nat (length pre)) (-1)) as [Hneg|_]; [lia|].
  rewrite <- Nat2Z.inj_add, <- length_app.
  rewrite (app_assoc pre START_MARKER).
  rewrite (find_none _ _ _ H2). reflexivity.
Qed.

Lemma no_LF_lines (ls : list str) :
  forallb (fun l => negb (mem_char l LF)) ls = true ->
  Forall (fun l => ~ In LF l) ls.
Proof.
  intros H. apply Forall_forall. intros l Hl G.
  rewrite forallb_forall in H. specialize (H l Hl).
  apply negb_true_iff in H.
  assert (T : mem_char l LF = true).
  { apply existsb_exists. exists LF. split; [exact G | reflexivity]. }
  congruence.
Qed.

Lemma trim_split_join (lead data trail : list str) :
  forallb (fun l => negb (mem_char l LF)) (lead ++ data ++ trail) = true ->
  forallb is_blank lead = true -> forallb is_blank trail = true ->
  edges_nonblank data = true ->
  pop_blank_back (pop_blank_front
    (split_on LF (join [LF] (lead ++ data ++ trail)))) = data.
Proof.
  intros Hlf Hlead Htrail Hdata.
  destruct (lead ++ data ++ trail) eqn:E.
  - apply app_eq_nil in E as [_ E]. apply app_eq_nil in E as [-> _].
    reflexivity.
  - rewrite <- E in *. rewrite split_on_join.
    + now apply trim_lines.
    + rewrite E. discriminate.
    + now apply no_LF_lines.
Qed.

(** ** [extract_station_name] *)

Lemma find_tag_at (doc pre tag : str) :
  first_occurrence tag doc (length pre) = true ->
  find doc tag 0 = Z.of_nat (length pre).
Proof. intros H. exact (find_first [] doc tag (length pre) H). Qed.

Lemma find_tag_absent (doc tag : str) :
  occurs tag doc = false -> find doc tag 0 = (-1)%Z.
Proof. intros H. exact (find_none [] doc tag H). Qed.

(** The search of one tag pair: opening tag first at [pre], closing tag
    first after [inner]. *)
Lemma find_closing_tag (pre open inner close post : str) :
  length open = 4 ->
  first_occurrence close (inner ++ close ++ post) (length inner) = true ->
  find (pre ++ open ++ inner ++ close ++ post) close
       (Z.of_nat (length pre) + 4)
  = Z.of_nat (length (pre ++ open) + length inner).
Proof.
  intros Hlen H.
  replace (Z.of_nat (length pre) + 4)%Z with (Z.of_nat (length (pre ++ open)))
    by (rewrite length_app; lia).
  rewrite (app_assoc pre open). now apply find_first.
Qed.

Lemma slice_heading (pre open inner close post : str) :
  length open = 4 ->
  slice (pre ++ open ++ inner ++ close ++ post)
        (Z.of_nat (length pre) + 4)
        (Z.of_nat (length (pre ++ open) + length inner)) = inner.
Proof.
  intros Hlen.
  replace (Z.of_nat (length pre) + 4)%Z with (Z.of_nat (length (pre ++ open)))
    by (rewrite length_app; lia).
  rewrite (app_assoc pre open). apply slice_middle.
Qed.

Lemma locate_heading_inner (doc inner : str) :
  heading_inner doc inner ->
  exists s e : Z,
    locate_heading doc = (s, e, 4%Z)
    /\ s <> (-1)%Z /\ e <> (-1)%Z /\ slice doc (s + 4) e = inner.
Proof.
  intros H. destruct H as [pre inner post Hopen Hclose
                          | pre inner post Hno Hopen Hclose].
  - exists (Z.of_nat (length pre)),
           (Z.of_nat (length (pre ++ lit "<H2>") + length inner)).
    unfold locate_heading. cbv zeta.
    rewrite (find_tag_at _ _ _ Hopen).
    destruct (Z.eqb_spec (Z.of_nat (length pre)) (-1)) as [Hneg|_]; [lia|].
    cbn [negb].
    rewrite (find_closing_tag pre (lit "<H2>") inner (lit "</H2>") post
               eq_refl Hclose).
    repeat split; try lia.
    now apply slice_heading.
  - exists (Z.of_nat (length pre)),
           (Z.of_nat (length (pre ++ lit "<h2>") + length inner)).
    unfold locate_heading. cbv zeta.
    rewrite (find_tag_absent _ _ Hno). cbn [Z.eqb negb].
    rewrite (find_tag_at _ _ _ Hopen).
    destruct (Z.eqb_spec (Z.of_nat (length pre)) (-1)) as [Hneg|_]; [lia|].
    cbn [negb].
    rewrite (find_closing_tag pre (lit "<h2>") inner (lit "</h2>") post
               eq_refl Hclose).
    repeat split; try lia.
    now apply slice_heading.
Qed.

Lemma extract_station_name_heading (html_unescape : str -> str)
      (doc inner station_id : str) :
  heading_inner doc inner ->
  extract_station_name html_unescape doc station_id
  = sanitize (name_from_header (strip (html_unescape inner))) station_id.
Proof.
  intros H. destruct (locate_heading_inner doc inner H) as [s [e [L [Hs [He Hsl]]]]].
  unfold extract_station_name. rewrite L.
  destruct (Z.eqb_spec s (-1)) as [|_]; [contradiction|].
  destruct (Z.eqb_spec e (-1)) as [|_]; [contradiction|].
  cbn [negb andb]. now rewrite Hsl.
Qed.

Lemma extract_station_name_no_heading (html_unescape : str -> str)
      (doc station_id : str) :
  heading_found doc = false ->
  extract_station_name html_unescape doc station_id
  = sanitize station_id station_id.
Proof.
  unfold heading_found, extract_station_name.
  destruct (locate_heading doc) as [[s e] off].
  intros H. now rewrite H.
Qed.


(** ** What a located heading is *)

Lemma is_prefix_split (pat s : str) :
  is_prefix pat s = true -> s = pat ++ skipn (length pat) s.
Proof.
  revert s; induction pat as [|a pat IH]; intros s H; [reflexivity|].
  destruct s as [|b s]; [discriminate|].
  simpl in H. apply andb_true_iff in H as [Hab Hs].
  apply N.eqb_eq in Hab. subst b. simpl. f_equal. now apply IH.
Qed.

Lemma occurs_at_split (pat s : str) (k : nat) :
  occurs_at pat s k = true ->
  s = firstn k s ++ pat ++ skipn (length pat) (skipn k s).
Proof.
  intros H. unfold occurs_at in H.
  rewrite <- (is_prefix_split pat (skipn k s) H).
  symmetry. apply firstn_skipn.
Qed.

Lemma search_found (pat s : str) :
  forall (i r : Z),
    search pat s i = r -> r <> (-1)%Z ->
    exists k : nat,
      r = (i + Z.of_nat k)%Z /\ first_occurrence pat s k = true
      /\ k <= length s.
Proof.
  induction s as [|c s IH]; intros i r Hr Hne.
  - simpl in Hr. destruct (is_prefix pat []) eqn:P; [|congruence].
    exists 0. repeat split; [lia | | lia].
    unfold first_occurrence, occurs_at. simpl. now rewrite P.
  - simpl in Hr. destruct (is_prefix pat (c :: s)) eqn:P.
    + exists 0. repeat split; [lia | | lia].
      unfold first_occurrence, occurs_at. simpl skipn. now rewrite P.
    + destruct (IH _ _ Hr Hne) as [k [Ek [Hk Hlen]]].
      exists (S k). repeat split; [lia | | simpl; lia].
      apply first_occurrence_spec in Hk as [Hat Hbefore].
      apply first_occurrence_spec. split; [exact Hat|].
      intros [|j] Hj; [exact P|].
      apply Hbefore. lia.
Qed.


Lemma find_from_start (doc pat : str) : find doc pat 0 = search pat doc 0.
Proof. exact (find_at_offset [] doc pat). Qed.

(** A successful search of an opening tag and then of a closing tag
    cuts the document at the two first occurrences. *)
Lemma tag_pair_found (doc open close : str) (n : Z) :
  Z.of_nat (length open) = n ->
  find doc open 0 <> (-1)%Z ->
  find doc close (find doc open 0 + n) <> (-1)%Z ->
  exists pre inner post : str,
    doc = pre ++ open ++ inner ++ close ++ post
    /\ first_occurrence open doc (length pre) = true
    /\ first_occurrence close (inner ++ close ++ post) (length inner) = true.
Proof.
  intros Hlen Hs He. rewrite find_from_start in Hs, He.
  destruct (search_found open doc 0 _ eq_refl Hs) as [k [Ek [Hk Hklen]]].
  rewrite Ek in He. clear Ek Hs.
  pose proof (proj1 (first_occurrence_spec _ _ _) Hk) as [Hat _].
  pose proof (occurs_at_split open doc k Hat) as Edoc.
  set (pre := firstn k doc) in *.
  set (rest := skipn (length open) (skipn k doc)) in *.
  assert (Hpre : length pre = k) by (unfold pre; rewrite length_firstn; lia).
  assert (Efind : find doc close (0 + Z.of_nat k + n)
                  = search close rest (Z.of_nat (length (pre ++ open)))).
  { rewrite Edoc at 1. rewrite (app_assoc pre open).
    replace (0 + Z.of_nat k + n)%Z with (Z.of_nat (length (pre ++ open)))
      by (rewrite length_app; lia).
    apply find_at_offset. }
  rewrite Efind in He.
  destruct (search_found close rest _ _ eq_refl He) as [k2 [_ [Hk2 Hk2len]]].
  pose proof (proj1 (first_occurrence_spec _ _ _) Hk2) as [Hat2 _].
  pose proof (occurs_at_split close rest k2 Hat2) as Erest.
  set (inner := firstn k2 rest) in *.
  set (post := skipn (length close) (skipn k2 rest)) in *.
  assert (Hinner : length inner = k2)
    by (unfold inner; rewrite length_firstn; lia).
  exists pre, inner, post. rewrite Hpre, Hinner, <- Erest.
  repeat split; assumption.
Qed.


Lemma re_sub_runs_keep (keep : char -> bool) (repl : str) (b : bool) (s : str) :
  forallb keep s = true -> re_sub_runs keep repl b s = s.
Proof.
  revert b; induction s as [|c s IH]; intros b H; simpl; [reflexivity|].
  simpl in H. apply andb_true_iff in H as [Hc Hs].
  rewrite Hc. f_equal. now apply IH.
Qed.

Lemma strip_chars_clean (s : str) (x : char) :
  (hd 0%N s =? x)%N = false -> (last s 0%N =? x)%N = false ->
  strip_chars s [x] = s.
Proof.
  intros Hhd Hlast. unfold strip_chars, strip_by.
  destruct s as [|c s]; [reflexivity|].
  assert (Hl : lstrip_by (mem_char [x]) (c :: s) = c :: s).
  { apply lstrip_by_head. unfold mem_char. simpl. simpl in Hhd.
    now rewrite Hhd. }
  rewrite Hl.
  assert (Hne : c :: s <> []) by discriminate.
  destruct (exists_last Hne) as [init [y Ey]].
  rewrite Ey in *. rewrite last_last in Hlast.
  apply rstrip_by_last. unfold mem_char. simpl. now rewrite Hlast.
Qed.

Lemma sanitize_clean (s : str) :
  clean_name s = true -> sanitize s s = s.
Proof.
  unfold clean_name. intros H.
  apply andb_true_iff in H as [H Hlast].
  apply andb_true_iff in H as [Hall Hhd].
  apply negb_true_iff in Hlast, Hhd.
  unfold sanitize. rewrite re_sub_runs_keep by assumption.
  rewrite strip_chars_clean by assumption.
  destruct s; reflexivity.
Qed.

Lemma name_from_header_short (header : str) :
  length (split_ws header) < 3 -> name_from_header header = header.
Proof.
  intros H. unfold name_from_header.
  destruct (Nat.leb_spec 3 (length (split_ws header))); [lia | reflexivity].
Qed.

Lemma replace_cr_no_CR (s : str) : mem_char (replace s [CR] [LF]) CR = false.
Proof.
  unfold replace. induction s as [|c s IH]; [reflexivity|].
  cbn [replace_go is_prefix length Nat.sub app].
  rewrite andb_true_r.
  destruct (N.eqb_spec CR c) as [E|E]; rewrite mem_char_cons, IH, orb_false_r.
  - reflexivity.
  - now apply N.eqb_neq.
Qed.

Lemma normalize_newlines_idem (doc : str) :
  normalize_newlines (normalize_newlines doc) = normalize_newlines doc.
Proof.
  apply normalize_newlines_no_CR. unfold normalize_newlines.
  apply replace_cr_no_CR.
Qed.

Lemma pop_blank_front_decomp (ls : list str) :
  exists w : list str,
    ls = w ++ pop_blank_front ls /\ forallb is_blank w = true.
Proof.
  induction ls as [|l ls [w [E W]]]; simpl.
  - exists []; auto.
  - destruct (is_blank l) eqn:B.
    + exists (l :: w). simpl. rewrite B, W. split; [now f_equal | reflexivity].
    + exists []; auto.
Qed.

Lemma pop_blank_front_head (ls : list str) (l : str) (r : list str) :
  pop_blank_front ls = l :: r -> is_blank l = false.
Proof.
  induction ls as [|x ls IH]; simpl; [discriminate|].
  destruct (is_blank x) eqn:B; [exact IH|].
  intros E. now inversion E; subst.
Qed.

Lemma trimmed_edges (ls : list str) :
  edges_nonblank (pop_blank_back (pop_blank_front ls)) = true.
Proof.
  set (m := pop_blank_front ls).
  unfold pop_blank_back.
  destruct (pop_blank_front_decomp (rev m)) as [w [E W]].
  set (q := pop_blank_front (rev m)) in *.
  assert (Em : m = rev q ++ rev w).
  { rewrite <- rev_app_distr, <- E. now rewrite rev_involutive. }
  destruct (rev q) as [|l r] eqn:R; [reflexivity|].
  unfold edges_nonblank. apply andb_true_iff. split; apply negb_true_iff.
  - apply (pop_blank_front_head ls l (r ++ rev w)). fold m. now rewrite Em.
  - destruct q as [|x q'] eqn:Q; [discriminate|].
    rewrite <- R. simpl rev. rewrite last_last.
    now apply (pop_blank_front_head (rev m) x q').
Qed.


(** ** Safety of the resolved name *)

Lemma lstrip_by_first (p : char -> bool) (s : str) (c : char) (r : str) :
  lstrip_by p s = c :: r -> p c = false.
Proof.
  induction s as [|x s IH]; simpl; [discriminate|].
  destruct (p x) eqn:Px; [exact IH|].
  intros E. inversion E; subst. exact Px.
Qed.

Lemma forallb_lstrip_by (q p : char -> bool) (s : str) :
  forallb q s = true -> forallb q (lstrip_by p s) = true.
Proof.
  intros H. destruct (lstrip_by_decomp p s) as [w [E _]].
  rewrite E, forallb_app in H. now apply andb_true_iff in H as [_ H].
Qed.

Lemma forallb_rstrip_by (q p : char -> bool) (s : str) :
  forallb q s = true -> forallb q (rstrip_by p s) = true.
Proof.
  intros H. destruct (rstrip_by_decomp p s) as [w [E _]].
  rewrite E, forallb_app in H. now apply andb_true_iff in H as [H _].
Qed.

Lemma rstrip_by_last_char (p : char -> bool) (s : str) :
  rstrip_by p s <> [] -> p (last (rstrip_by p s) 0%N) = false.
Proof.
  unfold rstrip_by. intros Hne.
  destruct (lstrip_by p (rev s)) as [|c r] eqn:E; [contradiction|].
  simpl rev. rewrite last_last. now apply (lstrip_by_first p (rev s) c r).
Qed.

Lemma strip_by_first_char (p : char -> bool) (s : str) :
  strip_by p s <> [] -> p (hd 0%N (strip_by p s)) = false.
Proof.
  unfold strip_by. intros Hne.
  destruct (rstrip_by_decomp p (lstrip_by p s)) as [w [E _]].
  destruct (rstrip_by p (lstrip_by p s)) as [|c r] eqn:R; [contradiction|].
  simpl. simpl in E. now apply (lstrip_by_first p s c (r ++ w)).
Qed.

Lemma re_sub_runs_all_keep (keep : char -> bool) (repl : str) (b : bool)
      (s : str) :
  forallb keep repl = true ->
  forallb keep (re_sub_runs keep repl b s) = true.
Proof.
  intros Hrepl. revert b; induction s as [|c s IH]; intros b; simpl;
    [reflexivity|].
  destruct (keep c) eqn:K.
  - simpl. now rewrite K, IH.
  - destruct b; [apply IH|]. now rewrite forallb_app, Hrepl, IH.
Qed.

Lemma mem_char_single (x c : char) : mem_char [x] c = (c =? x)%N.
Proof. unfold mem_char. simpl. apply orb_false_r. Qed.

Lemma sanitize_safe (raw_name station_id : str) :
  sanitize raw_name station_id = station_id
  \/ (sanitize raw_name station_id <> []
      /\ clean_name (sanitize raw_name station_id) = true).
Proof.
  unfold sanitize.
  set (name := re_sub_runs name_char [UNDERSCORE] false raw_name).
  assert (Hall : forallb name_char name = true)
    by (apply re_sub_runs_all_keep; reflexivity).
  destruct (strip_chars name [UNDERSCORE]) as [|c r] eqn:E; [now left|].
  right. split; [discriminate|].
  assert (Hne : strip_chars name [UNDERSCORE] <> []) by (rewrite E; discriminate).
  unfold clean_name. rewrite <- E.
  apply andb_true_iff. split; [apply andb_true_iff; split|].
  - unfold strip_chars, strip_by.
    now apply forallb_rstrip_by, forallb_lstrip_by.
  - apply negb_true_iff. rewrite <- mem_char_single.
    now apply strip_by_first_char.
  - apply negb_true_iff. rewrite <- mem_char_single.
    unfold strip_chars, strip_by in *. now apply rstrip_by_last_char.
Qed.

Lemma extract_station_name_sanitize (html_unescape : str -> str)
      (raw_html station_id : str) :
  exists raw_name : str,
    extract_station_name html_unescape raw_html station_id
    = sanitize raw_name station_id.
Proof.
  unfold extract_station_name.
  destruct (locate_heading raw_html) as [[s e] off].
  eexists. reflexivity.
Qed.

(** ** Characters of the returned lines *)

Lemma mem_char_app (a b : str) (x : char) :
  mem_char (a ++ b) x = mem_char a x || mem_char b x.
Proof. unfold mem_char. apply existsb_app. Qed.

Lemma mem_char_firstn (s : str) (n : nat) (x : char) :
  mem_char s x = false -> mem_char (firstn n s) x = false.
Proof.
  intros H. rewrite <- (firstn_skipn n s), mem_char_app in H.
  now apply orb_false_iff in H as [H _].
Qed.

Lemma mem_char_skipn (s : str) (n : nat) (x : char) :
  mem_char s x = false -> mem_char (skipn n s) x = false.
Proof.
  intros H. rewrite <- (firstn_skipn n s), mem_char_app in H.
  now apply orb_false_iff in H as [_ H].
Qed.

Lemma mem_char_slice (s : str) (a b : Z) (x : char) :
  mem_char s x = false -> mem_char (slice s a b) x = false.
Proof. intros H. unfold slice. now apply mem_char_firstn, mem_char_skipn. Qed.

Lemma split_on_nonempty (sep : char) (s : str) : split_on sep s <> [].
Proof.
  destruct s as [|c s]; simpl; [discriminate|].
  destruct (split_on sep s); [discriminate|].
  destruct (c =? sep)%N; discriminate.
Qed.

(** The pieces of a split hold no separator, and no character the
    string did not hold. *)
Lemma split_on_pieces (sep : char) (s : str) (x : char) :
  (x = sep \/ mem_char s x = false) ->
  Forall (fun piece => mem_char piece x = false) (split_on sep s).
Proof.
  induction s as [|c s IH]; intros H; simpl.
  - constructor; [reflexivity | constructor].
  - assert (Hs : x = sep \/ mem_char s x = false).
    { destruct H as [H|H]; [now left | right].
      rewrite mem_char_cons in H. now apply orb_false_iff in H as [_ H]. }
    specialize (IH Hs).
    pose proof (split_on_nonempty sep s) as Hne.
    destruct (split_on sep s) as [|p ps]; [contradiction|].
    inversion IH as [|? ? Hp Hps]; subst.
    destruct (N.eqb_spec c sep) as [->|Hne'].
    + constructor; [reflexivity | now constructor].
    + constructor; [|assumption].
      rewrite mem_char_cons, Hp, orb_false_r.
      destruct H as [->|H].
      * apply N.eqb_neq. congruence.
      * rewrite mem_char_cons in H. now apply orb_false_iff in H as [H _].
Qed.

Lemma pop_blank_front_Forall (P : str -> Prop) (ls : list str) :
  Forall P ls -> Forall P (pop_blank_front ls).
Proof.
  intros H. destruct (pop_blank_front_decomp ls) as [w [E _]].
  rewrite E in H. now apply Forall_app in H as [_ H].
Qed.

Lemma pop_blank_back_Forall (P : str -> Prop) (ls : list str) :
  Forall P ls -> Forall P (pop_blank_back ls).
Proof.
  intros H. unfold pop_blank_back.
  apply Forall_rev, pop_blank_front_Forall, Forall_rev. exact H.
Qed.

Lemma extract_block_ok_lines (doc : str) (lines : list str) :
  extract_block doc = Ok lines ->
  exists a b : Z,
    lines = pop_blank_back (pop_blank_front
              (split_on LF (slice (normalize_newlines doc) a b))).
Proof.
  unfold extract_block. cbv zeta.
  destruct (_ =? -1)%Z; [discriminate|].
  destruct (_ =? -1)%Z; [discriminate|].
  intros H. inversion H. eexists. eexists. reflexivity.
Qed.

(** ** Reading the normalised table back *)

Lemma line_triple_tokens (F : Type) (float : str -> option F) (a b : str) :
  split_ws a = split_ws b -> line_triple float a = line_triple float b.
Proof. intros H. unfold line_triple. now rewrite H. Qed.

Lemma line_triple_emitted_tab (F : Type) (float : str -> option F)
      (line : str) :
  flat_map (line_triple float) (emitted [TAB] line) = line_triple float line.
Proof.
  unfold emitted. pose proof (split_ws_tokens line) as Ht.
  destruct (split_ws line) as [|t ts] eqn:E.
  - unfold line_triple. now rewrite E.
  - cbn [flat_map]. rewrite app_nil_r. apply line_triple_tokens.
    rewrite E. now apply split_ws_join_space.
Qed.

Lemma line_triple_emitted_comma (F : Type) (float : str -> option F)
      (line : str) :
  flat_map (line_triple float) (emitted [COMMA] line) = [].
Proof.
  pose proof (emitted_stable [COMMA] line (or_introl eq_refl)) as Hst.
  unfold emitted in *. pose proof (split_ws_tokens line) as Ht.
  destruct (split_ws line) as [|t ts] eqn:E; [reflexivity|].
  cbn [flat_map]. rewrite app_nil_r. unfold line_triple.
  rewrite split_ws_token; [reflexivity|].
  split.
  - apply join_nonempty. inversion Ht as [|? ? [Hne _] _]. exact Hne.
  - apply forallb_join; [reflexivity|].
    eapply Forall_impl; [|exact Ht]. now intros a [_ Ha].
Qed.

Lemma flat_map_triple_emitted_comma (F : Type) (float : str -> option F)
      (lines : list str) :
  flat_map (fun x => flat_map (line_triple float) (emitted [COMMA] x)) lines
  = [].
Proof.
  induction lines as [|l ls IH]; cbn [flat_map]; [reflexivity|].
  now rewrite line_triple_emitted_comma, IH.
Qed.

Lemma flat_map_flat_map (A B C : Type) (f : A -> list B) (g : B -> list C)
      (l : list A) :
  flat_map g (flat_map f l) = flat_map (fun x => flat_map g (f x)) l.
Proof.
  induction l as [|x l IH]; simpl; [reflexivity|].
  now rewrite flat_map_app, IH.
Qed.

(** The lines of a normalised text are the emitted lines and one empty
    piece (two when nothing was emitted). *)
Lemma split_normalized (lines : list str) (sep : str) :
  sep = [COMMA] \/ sep = [TAB] ->
  exists blanks : list str,
    split_on LF (normalize_lines lines sep)
    = flat_map (emitted sep) lines ++ blanks
    /\ forallb is_blank blanks = true.
Proof.
  intros Hsep. rewrite normalize_lines_spec.
  pose proof (flat_map_emitted_stable sep lines Hsep) as Hst.
  destruct (flat_map (emitted sep) lines) as [|o outs] eqn:E.
  - exists [[]; []]. split; reflexivity.
  - exists [[]]. split; [|reflexivity].
    apply split_on_join_newline; [discriminate|].
    eapply Forall_impl; [|exact Hst]. now intros a [_ Ha].
Qed.

Lemma line_triple_blank (F : Type) (float : str -> option F)
      (blanks : list str) :
  forallb is_blank blanks = true ->
  flat_map (line_triple float) blanks = [].
Proof.
  induction blanks as [|l ls IH]; simpl; [reflexivity|].
  intros H. apply andb_true_iff in H as [Hl Hls].
  rewrite (IH Hls), app_nil_r. unfold line_triple.
  rewrite is_blank_spec in Hl. apply split_ws_nil_iff in Hl. now rewrite Hl.
Qed.

Lemma parse_profiles_flat (F : Type) (float : str -> option F)
      (lines : list str) :
  parse_profiles float lines
  = add_triples F ([], [], []) (flat_map (line_triple float) lines).
Proof. unfold parse_profiles. apply parse_loop_triples. Qed.

(** ** Decimal formatting *)

Lemma digits_rev_value (fuel : nat) :
  forall n : N,
    N.to_nat n < fuel ->
    fold_right (fun c acc => (10 * acc + (c - 48))%N) 0%N (digits_rev fuel n)
    = n.
Proof.
  induction fuel as [|f IH]; intros n Hn; [lia|].
  cbn [digits_rev fold_right].
  destruct (N.ltb_spec n 10) as [Hlt|Hge].
  - cbn [fold_right]. rewrite N.mod_small by assumption. lia.
  - rewrite IH.
    + pose proof (N.div_mod n 10 ltac:(lia)) as Hdm.
      replace (48 + n mod 10 - 48)%N with (n mod 10)%N
        by (generalize (n mod 10)%N; intros r; lia).
      now rewrite <- Hdm.
    + assert (Hq : (n / 10 < n)%N) by (apply N.div_lt; lia).
      revert Hq. generalize (n / 10)%N. intros q Hq. lia.
Qed.

Lemma digits_rev_ascii (fuel : nat) :
  forall n : N, forallb ascii_digit (digits_rev fuel n) = true.
Proof.
  induction fuel as [|f IH]; intros n; [reflexivity|].
  cbn [digits_rev forallb].
  assert (Hd : ascii_digit (48 + n mod 10)%N = true).
  { unfold ascii_digit.
    pose proof (N.mod_upper_bound n 10 ltac:(lia)) as Hr. revert Hr.
    generalize (n mod 10)%N. intros r Hr.
    apply andb_true_iff. split; apply N.leb_le; lia. }
  rewrite Hd. destruct (n <? 10)%N; [reflexivity | apply IH].
Qed.

Lemma digits_rev_length (w : nat) :
  forall (fuel : nat) (n : N),
    (n < 10 ^ N.of_nat (S w))%N -> length (digits_rev fuel n) <= S w.
Proof.
  induction w as [|w IH]; intros fuel n Hn; destruct fuel as [|f];
    cbn [digits_rev length]; try lia.
  - change (10 ^ N.of_nat 1)%N with 10%N in Hn.
    destruct (N.ltb_spec n 10); [simpl; lia | lia].
  - destruct (N.ltb_spec n 10) as [Hlt|Hge]; [simpl; lia|].
    apply le_n_S. apply IH.
    rewrite Nat2N.inj_succ, N.pow_succ_r' in Hn.
    apply N.Div0.div_lt_upper_bound. exact Hn.
Qed.

Lemma digits_rev_nonempty (fuel : nat) (n : N) :
  0 < fuel -> 0 < length (digits_rev fuel n).
Proof. destruct fuel; [lia | simpl; lia]. Qed.

Lemma value_of_digits_rev (l : str) :
  value_of_digits (rev l)
  = fold_right (fun c acc => (10 * acc + (c - 48))%N) 0%N l.
Proof.
  unfold value_of_digits.
  rewrite <- (fold_left_rev_right
                (fun c acc => (10 * acc + (c - 48))%N) (rev l)).
  now rewrite rev_involutive.
Qed.

Lemma value_of_digits_zeros (k : nat) (s : str) :
  value_of_digits (repeat 48%N k ++ s) = value_of_digits s.
Proof.
  unfold value_of_digits. rewrite fold_left_app. f_equal.
  induction k as [|k IH]; [reflexivity | exact IH].
Qed.

Lemma value_of_str_of_int (n : N) : value_of_digits (str_of_int n) = n.
Proof.
  unfold str_of_int. rewrite value_of_digits_rev.
  apply digits_rev_value. lia.
Qed.

(** Reading a formatted number gives the number back. *)
Lemma value_of_format_0d (width : nat) (n : N) :
  value_of_digits (format_0d width n) = n.
Proof.
  unfold format_0d. rewrite value_of_digits_zeros. apply value_of_str_of_int.
Qed.

Lemma format_0d_ascii (width : nat) (n : N) :
  forallb ascii_digit (format_0d width n) = true.
Proof.
  unfold format_0d, str_of_int. rewrite forallb_app. apply andb_true_iff.
  split.
  - apply forallb_forall. intros c Hc. apply repeat_spec in Hc. now subst.
  - rewrite forallb_rev. apply digits_rev_ascii.
Qed.

Lemma format_0d_length (w : nat) (n : N) :
  (n < 10 ^ N.of_nat (S w))%N -> length (format_0d (S w) n) = S w.
Proof.
  intros Hn. unfold format_0d, str_of_int.
  rewrite length_app, repeat_length, !length_rev.
  pose proof (digits_rev_length w (S (N.to_nat n)) n Hn) as Hlen.
  clear Hn. lia.
Qed.

Lemma app_eq_length (a b x y : str) :
  length a = length b -> a ++ x = b ++ y -> a = b /\ x = y.
Proof.
  revert b; induction a as [|c a IH]; intros [|d b] Hlen H;
    try discriminate.
  - now split.
  - simpl in H. inversion H; subst.
    destruct (IH b) as [-> ->]; [simpl in Hlen; lia | assumption | now split].
Qed.

Lemma format_0d_inj (w : nat) (n m : N) :
  format_0d w n = format_0d w m -> n = m.
Proof.
  intros H. rewrite <- (value_of_format_0d w n), <- (value_of_format_0d w m).
  now rewrite H.
Qed.

(** ** [build_url] *)

Lemma valid_datetime_bounds (w : datetime) :
  valid_datetime w = true ->
  (dt_year w < 10 ^ N.of_nat 4)%N /\ (dt_month w < 10 ^ N.of_nat 2)%N
  /\ (dt_day w < 10 ^ N.of_nat 2)%N /\ (dt_hour w < 10 ^ N.of_nat 2)%N.
Proof.
  unfold valid_datetime. rewrite !andb_true_iff, !N.leb_le.
  change (10 ^ N.of_nat 4)%N with 10000%N.
  change (10 ^ N.of_nat 2)%N with 100%N. lia.
Qed.

(** Two formatted fields of the same width in front of equal-length
    texts: equal texts give equal fields. *)
Lemma format_0d_app_inj (w : nat) (n m : N) (x y : str) :
  (n < 10 ^ N.of_nat (S w))%N -> (m < 10 ^ N.of_nat (S w))%N ->
  format_0d (S w) n ++ x = format_0d (S w) m ++ y -> n = m /\ x = y.
Proof.
  intros Hn Hm H.
  destruct (app_eq_length (format_0d (S w) n) (format_0d (S w) m) x y)
    as [E Exy]; [now rewrite !format_0d_length | exact H|].
  split; [now apply (format_0d_inj (S w)) | exact Exy].
Qed.

(** ** The digit table of the Latin-1 range *)

Lemma ascii_digit_cases (c : char) :
  ascii_digit c = true ->
  (c = 48 \/ c = 49 \/ c = 50 \/ c = 51 \/ c = 52 \/ c = 53 \/ c = 54
   \/ c = 55 \/ c = 56 \/ c = 57)%N.
Proof.
  unfold ascii_digit. rewrite andb_true_iff, !N.leb_le. lia.
Qed.

Lemma latin1_decimal_isdigit (c : char) (v : N) :
  latin1_decimal c = Some v -> latin1_isdigit c = true.
Proof.
  unfold latin1_decimal, latin1_isdigit.
  destruct (ascii_digit c); [reflexivity | discriminate].
Qed.

Lemma latin1_isdigit_not_space (c : char) :
  latin1_isdigit c = true -> isspace c = false.
Proof.
  unfold latin1_isdigit. rewrite !orb_true_iff, !N.eqb_eq.
  intros [[[A | ->] | ->] | ->]; try reflexivity.
  apply ascii_digit_cases in A.
  repeat (destruct A as [-> | A]; [reflexivity|]). now subst.
Qed.

Lemma latin1_isdigit_ascii (c : char) :
  (c < 128)%N -> latin1_isdigit c = ((48 <=? c) && (c <=? 57))%N.
Proof.
  intros H. unfold latin1_isdigit, ascii_digit.
  destruct (N.eqb_spec c 178); [lia|].
  destruct (N.eqb_spec c 179); [lia|].
  destruct (N.eqb_spec c 185); [lia|].
  now rewrite !orb_false_r.
Qed.

Lemma latin1_decimal_ascii (c : char) :
  ((48 <=? c) && (c <=? 57))%N = true -> latin1_decimal c = Some (c - 48)%N.
Proof. intros H. unfold latin1_decimal, ascii_digit. now rewrite H. Qed.

(** The digits below 256: ['0'] to ['9'], and the superscripts two,
    three and one, which [int] does not read. *)
Definition latin1_digits : digit_table :=
  {| isdigit := latin1_isdigit;
     decimal := latin1_decimal;
     decimal_isdigit := latin1_decimal_isdigit;
     isdigit_not_space := latin1_isdigit_not_space;
     isdigit_ascii := latin1_isdigit_ascii;
     decimal_ascii := latin1_decimal_ascii |}.

(** ** Strings of digits *)

Lemma strip_token (t : str) : token t -> strip t = t.
Proof.
  intros [Hne Ht]. unfold strip, strip_by.
  destruct t as [|c t]; [contradiction|].
  assert (Hc : isspace c = false).
  { simpl in Ht. apply andb_true_iff in Ht as [Hc _].
    now apply negb_true_iff in Hc. }
  rewrite (lstrip_by_head isspace c t Hc).
  assert (Hcons : c :: t <> []) by discriminate.
  destruct (exists_last Hcons) as [init [x Ex]].
  rewrite Ex in *. apply rstrip_by_last.
  rewrite forallb_app in Ht. apply andb_true_iff in Ht as [_ Hx].
  simpl in Hx. rewrite andb_true_r in Hx. now apply negb_true_iff in Hx.
Qed.

Section DigitStrings.
Variable digits : digit_table.

Lemma isdigit_zero : isdigit digits 48%N = true.
Proof. now rewrite (isdigit_ascii digits 48%N). Qed.

Lemma decimal_zero : decimal digits 48%N = Some 0%N.
Proof. now rewrite (decimal_ascii digits 48%N). Qed.

Lemma isdigit_not_colon (c : char) :
  isdigit digits c = true -> (58 =? c)%N = false.
Proof.
  intros H. destruct (N.eqb_spec 58 c) as [<-|]; [|reflexivity].
  now rewrite (isdigit_ascii digits 58%N) in H.
Qed.

Lemma isdigit_not_comma (c : char) :
  isdigit digits c = true -> (44 =? c)%N = false.
Proof.
  intros H. destruct (N.eqb_spec 44 c) as [<-|]; [|reflexivity].
  now rewrite (isdigit_ascii digits 44%N) in H.
Qed.

Lemma digits_no_colon (s : str) :
  forallb (isdigit digits) s = true -> mem_char s 58%N = false.
Proof.
  induction s as [|c s IH]; [reflexivity|].
  cbn [forallb]. intros H. apply andb_true_iff in H as [Hc Hs].
  rewrite mem_char_cons, (isdigit_not_colon c Hc). now apply IH.
Qed.

Lemma digits_token (s : str) :
  s <> [] -> forallb (isdigit digits) s = true -> token s.
Proof.
  intros Hne H. split; [exact Hne|].
  apply forallb_forall. intros c Hc. apply negb_true_iff.
  apply (isdigit_not_space digits). rewrite forallb_forall in H. now apply H.
Qed.

Lemma strip_digits (s : str) :
  forallb (isdigit digits) s = true -> strip s = s.
Proof.
  intros H. destruct s as [|c s]; [reflexivity|].
  apply strip_token. apply digits_token; [discriminate | exact H].
Qed.
End DigitStrings.

(** Removing a one-character pattern: a string without it is unchanged,
    and one occurrence between two such strings disappears. *)
Lemma replace_remove_absent (x : char) (s : str) :
  mem_char s x = false -> replace s [x] [] = s.
Proof.
  intros H. unfold replace. now apply (replace_go_no_head [x] [] s x []).
Qed.

Lemma replace_remove_one (x : char) (a b : str) :
  mem_char a x = false -> mem_char b x = false ->
  replace (a ++ x :: b) [x] [] = a ++ b.
Proof.
  intros Ha Hb. unfold replace. induction a as [|c a IH].
  - cbn [app replace_go is_prefix length Nat.sub]. rewrite N.eqb_refl.
    cbn [andb app]. exact (replace_remove_absent x b Hb).
  - rewrite mem_char_cons in Ha. apply orb_false_iff in Ha as [Hc Ha].
    cbn [app replace_go is_prefix]. rewrite Hc. cbn [andb]. f_equal.
    now apply IH.
Qed.

(** ** [parse_date_time] *)

Lemma try_formats_inr (E : Type) (strptime : str -> str -> E + datetime)
      (date_str : str) (formats : list str) (last_err : option E)
      (d : datetime) :
  try_formats strptime date_str formats last_err = inr d ->
  exists f : str, In f formats /\ strptime date_str f = inr d.
Proof.
  revert last_err; induction formats as [|f fs IH]; intros last_err;
    cbn [try_formats]; [discriminate|].
  destruct (strptime date_str f) as [e|d'] eqn:S.
  - intros H. destruct (IH _ H) as [g [Hg Sg]]. exists g. split; [now right|].
    exact Sg.
  - intros H. inversion H; subst. exists f. split; [now left | exact S].
Qed.

Lemma try_formats_some (E : Type) (strptime : str -> str -> E + datetime)
      (date_str : str) (formats : list str) (last_err : option E) :
  (exists f d, In f formats /\ strptime date_str f = inr d) ->
  exists d : datetime,
    try_formats strptime date_str formats last_err = inr d.
Proof.
  intros [f [d [Hf S]]]. revert last_err.
  induction formats as [|g gs IH]; intros last_err; [contradiction|].
  cbn [try_formats]. destruct (strptime date_str g) as [e|d'] eqn:Sg.
  - destruct Hf as [->|Hf]; [congruence|]. now apply IH.
  - now exists d'.
Qed.

Lemma replace_hour_minute_ok (E : Type) (d w : datetime) (hour minute : N) :
  @replace_hour_minute E d hour minute = inr w ->
  dt_hour w = hour /\ dt_minute w = minute /\ (hour <= 23)%N
  /\ dt_year w = dt_year d /\ dt_month w = dt_month d
  /\ dt_day w = dt_day d.
Proof.
  unfold replace_hour_minute.
  destruct (N.leb_spec hour 23) as [Hle|Hgt]; [|discriminate].
  intros Hw. inversion Hw; subst. simpl. repeat split; trivial.
Qed.

Lemma time_digits_length (time_str : str) :
  let u := strip (replace time_str (lit ":") []) in
  (length (time_digits time_str) =? 4)
  = ((length u =? 1) || (length u =? 2) || (length u =? 4)).
Proof.
  cbv zeta. unfold time_digits.
  destruct (strip (replace time_str (lit ":") []))
    as [|a [|b [|c [|d [|e r]]]]]; reflexivity.
Qed.

Lemma time_digits_isdigit (digits : digit_table) (time_str : str) :
  let u := strip (replace time_str (lit ":") []) in
  length (time_digits time_str) = 4 ->
  str_isdigit digits (time_digits time_str) = forallb (isdigit digits) u.
Proof.
  cbv zeta. unfold time_digits.
  destruct (strip (replace time_str (lit ":") []))
    as [|a [|b [|c [|d [|e r]]]]]; try discriminate; intros _;
    cbn [length Nat.eqb app lit map list_ascii_of_string str_isdigit forallb].
  - change (N_of_ascii "0") with 48%N.
    rewrite (isdigit_zero digits).
    destruct (isdigit digits a); reflexivity.
  - change (N_of_ascii "0") with 48%N.
    rewrite (isdigit_zero digits).
    destruct (isdigit digits a), (isdigit digits b); reflexivity.
  - reflexivity.
Qed.

(** The result for a time string whose four characters are known. *)
Lemma parse_date_time_digits (E : Type)
      (strptime : str -> str -> E + datetime) (digits : digit_table)
      (date_str time_str : str) (a b c d : char) (vc vd : N) :
  time_digits time_str = [a; b; c; d] ->
  isdigit digits a = true -> isdigit digits b = true ->
  decimal digits c = Some vc -> decimal digits d = Some vd ->
  parse_date_time strptime digits date_str time_str
  = match try_formats strptime date_str date_formats None with
    | inl last_err => inl (CouldNotParseDate date_str last_err)
    | inr dd =>
        match int_of_digits digits [a; b] with
        | None => inl (InvalidLiteral [a; b])
        | Some hour => replace_hour_minute dd hour 0
        end
    end.
Proof.
  intros Et Ha Hb Hc Hd. unfold parse_date_time. cbv zeta.
  fold date_formats.
  destruct (try_formats strptime date_str date_formats None) as [le|dd];
    [reflexivity|].
  rewrite Et.
  cbn [length Nat.eqb negb orb str_isdigit forallb].
  rewrite Ha, Hb, (decimal_isdigit digits c vc Hc),
    (decimal_isdigit digits d vd Hd).
  cbn [andb negb orb].
  change (slice [a; b; c; d] 0 2) with [a; b].
  change (slice [a; b; c; d] 2 4) with [c; d].
  destruct (int_of_digits digits [a; b]) as [hour|]; [|reflexivity].
  unfold int_of_digits. cbn [int_acc]. rewrite Hc, Hd. reflexivity.
Qed.

(** ** The two date parsers *)

(** Swapping the first two formats changes nothing when at most one of
    them parses the string. *)
Lemma try_formats_swap (E : Type) (strptime : str -> str -> E + datetime)
      (s f1 f2 f3 : str) :
  (forall d1 d2, strptime s f1 = inr d1 -> strptime s f2 = inr d2 -> d1 = d2) ->
  try_formats strptime s [f1; f2; f3] None
  = try_formats strptime s [f2; f1; f3] None.
Proof.
  intros H. cbn [try_formats].
  destruct (strptime s f1) as [e1|d1] eqn:S1;
    destruct (strptime s f2) as [e2|d2] eqn:S2; try reflexivity.
  now rewrite (H d1 d2 eq_refl eq_refl).
Qed.

(** All formats failing, the error kept is the one of the last format,
    in either order of the first two. *)
Lemma try_formats_fail_swap (E : Type) (strptime : str -> str -> E + datetime)
      (s f1 f2 f3 : str) (le : option E) :
  try_formats strptime s [f1; f2; f3] None = inl le <->
  try_formats strptime s [f2; f1; f3] None = inl le.
Proof.
  cbn [try_formats].
  destruct (strptime s f1) as [e1|d1]; destruct (strptime s f2) as [e2|d2];
    destruct (strptime s f3) as [e3|d3]; split; intros H;
    try discriminate; exact H.
Qed.

(** ** Sorted lists without repetition *)

Lemma insert_hour_In (h x : N) (l : list N) :
  In x (insert_hour h l) <-> x = h \/ In x l.
Proof.
  induction l as [|y l IH]; cbn [insert_hour].
  - simpl. intuition.
  - destruct (N.ltb_spec h y) as [Hlt|Hge].
    + simpl. intuition.
    + destruct (N.eqb_spec h y) as [->|Hne].
      * simpl. intuition.
      * simpl. rewrite IH. intuition.
Qed.

Lemma insert_hour_sorted (h : N) (l : list N) :
  StronglySorted N.lt l -> StronglySorted N.lt (insert_hour h l).
Proof.
  induction 1 as [|y l Hs IH Hall]; cbn [insert_hour].
  - constructor; constructor.
  - destruct (N.ltb_spec h y) as [Hlt|Hge].
    + constructor; [now constructor|].
      constructor; [exact Hlt|].
      eapply Forall_impl; [|exact Hall]. intros a Ha. lia.
    + destruct (N.eqb_spec h y) as [->|Hne]; [now constructor|].
      constructor; [exact IH|].
      apply Forall_forall. intros a Ha. apply insert_hour_In in Ha.
      destruct Ha as [->|Ha]; [lia|].
      rewrite Forall_forall in Hall. now apply Hall.
Qed.

Lemma sorted_set_In (x : N) (l : list N) : In x (sorted_set l) <-> In x l.
Proof.
  induction l as [|h l IH]; [reflexivity|].
  cbn [sorted_set fold_right]. fold (sorted_set l).
  rewrite insert_hour_In, IH. simpl. intuition.
Qed.

Lemma sorted_set_sorted (l : list N) : StronglySorted N.lt (sorted_set l).
Proof.
  induction l as [|h l IH]; [constructor|].
  cbn [sorted_set fold_right]. now apply insert_hour_sorted.
Qed.

(** An increasing list is determined by its elements. *)
Lemma sorted_lt_unique (l1 : list N) :
  forall l2 : list N,
    StronglySorted N.lt l1 -> StronglySorted N.lt l2 ->
    (forall x, In x l1 <-> In x l2) -> l1 = l2.
Proof.
  induction l1 as [|a l1 IH]; intros [|b l2] S1 S2 H.
  - reflexivity.
  - exfalso. apply (proj2 (H b)). now left.
  - exfalso. apply (proj1 (H a)). now left.
  - inversion S1 as [|? ? S1' A1]; inversion S2 as [|? ? S2' A2]; subst.
    rewrite Forall_forall in A1, A2.
    assert (Eab : a = b).
    { destruct (proj1 (H a) (or_introl eq_refl)) as [E|Ia]; [now symmetry|].
      destruct (proj2 (H b) (or_introl eq_refl)) as [E|Ib]; [exact E|].
      specialize (A1 b Ib). specialize (A2 a Ia). lia. }
    subst b. f_equal. apply IH; trivial.
    intros x. split; intros Hx.
    + destruct (proj1 (H x) (or_intror Hx)) as [E|Hx']; [|exact Hx'].
      subst x. specialize (A1 a Hx). lia.
    + destruct (proj2 (H x) (or_intror Hx)) as [E|Hx']; [|exact Hx'].
      subst x. specialize (A2 a Hx). lia.
Qed.

Lemma sorted_bounded_length (l : list N) :
  forall lo hi : N,
    StronglySorted N.lt l -> Forall (fun h => (lo <= h <= hi)%N) l ->
    length l <= N.to_nat (hi + 1 - lo).
Proof.
  induction l as [|a l IH]; intros lo hi S B; [simpl; lia|].
  inversion S as [|? ? S' A]; inversion B as [|? ? Ba B']; subst.
  assert (B2 : Forall (fun h => (a + 1 <= h <= hi)%N) l).
  { apply Forall_forall. intros x Hx.
    rewrite Forall_forall in A, B'. specialize (A x Hx).
    specialize (B' x Hx). lia. }
  specialize (IH (a + 1)%N hi S' B2). simpl. lia.
Qed.

Lemma StronglySorted_app_Z (l1 l2 : list Z) :
  StronglySorted Z.lt l1 -> StronglySorted Z.lt l2 ->
  (forall x y, In x l1 -> In y l2 -> (x < y)%Z) ->
  StronglySorted Z.lt (l1 ++ l2).
Proof.
  induction 1 as [|a l1 S1 IH A]; intros S2 H; [exact S2|].
  simpl. constructor.
  - apply IH; [exact S2|]. intros x y Hx Hy. apply H; [now right | exact Hy].
  - apply Forall_app. split; [exact A|].
    apply Forall_forall. intros y Hy. apply H; [now left | exact Hy].
Qed.

(** ** [parse_hours] *)

Section HoursLemmas.
Variable digits : digit_table.

Lemma parse_hours_loop_cons (token : str) (rest : list str) (hours : list N) :
  parse_hours_loop digits (token :: rest) hours
  = match token_hours digits token with
    | inl e => inl e
    | inr hs => parse_hours_loop digits rest (hours ++ hs)
    end.
Proof.
  cbn [parse_hours_loop]. unfold token_hours.
  destruct (strip token) as [|c t] eqn:S; [now rewrite app_nil_r|].
  destruct (negb _ || negb _); [reflexivity|].
  destruct (int_of_digits digits _) as [h|]; [|reflexivity].
  assert (Z0 : (0 <=? h)%N = true) by apply N.leb_le, N.le_0_l.
  rewrite Z0. cbn [andb]. destruct (h <=? 23)%N; reflexivity.
Qed.

Lemma token_hours_bound (token : str) (hs : list N) :
  token_hours digits token = inr hs -> Forall (fun h => (h <= 23)%N) hs.
Proof.
  unfold token_hours. destruct (strip token) as [|c t].
  - intros H. inversion H. constructor.
  - destruct (negb _ || negb _); [discriminate|].
    destruct (int_of_digits digits _) as [h|]; [|discriminate].
    destruct (N.leb_spec h 23) as [Hle|Hgt]; [|discriminate].
    intros H. inversion H. now repeat constructor.
Qed.

Lemma token_hours_nil_iff (token : str) :
  token_hours digits token = inr [] <-> is_blank token = true.
Proof.
  unfold token_hours, is_blank. destruct (strip token) as [|c t].
  - split; reflexivity.
  - split; [|discriminate].
    destruct (negb _ || negb _); [discriminate|].
    destruct (int_of_digits digits _) as [h|]; [|discriminate].
    destruct (h <=? 23)%N; discriminate.
Qed.

(** The loop succeeds exactly when every token does, and then adds the
    hours of the tokens, in order. *)
Lemma parse_hours_loop_ok (tokens : list str) :
  forall hours r : list N,
    parse_hours_loop digits tokens hours = inr r <->
    (Forall (token_ok digits) tokens
     /\ r = hours ++ flat_map (token_values digits) tokens).
Proof.
  induction tokens as [|t ts IH]; intros hours r.
  - cbn [parse_hours_loop flat_map]. rewrite app_nil_r. split.
    + intros H. inversion H. split; [constructor | reflexivity].
    + intros [_ ->]. reflexivity.
  - rewrite parse_hours_loop_cons. cbn [flat_map]. unfold token_values at 1.
    destruct (token_hours digits t) as [e|hs] eqn:T.
    + split; [discriminate|]. intros [H _]. inversion H as [|? ? [hs' Hhs] _].
      congruence.
    + rewrite IH, app_assoc. split; intros [H ->]; (split; [|reflexivity]).
      * constructor; [now exists hs | exact H].
      * now inversion H.
Qed.

Lemma token_values_bound (tokens : list str) :
  Forall (fun h => (h <= 23)%N) (flat_map (token_values digits) tokens).
Proof.
  induction tokens as [|t ts IH]; cbn [flat_map]; [constructor|].
  apply Forall_app. split; [|exact IH].
  unfold token_values. destruct (token_hours digits t) eqn:T; [constructor|].
  now apply (token_hours_bound t).
Qed.

Lemma parse_hours_tokens (hours_str : str) :
  parse_hours digits hours_str
  = match parse_hours_loop digits (split_on COMMA hours_str) [] with
    | inl e => inl e
    | inr [] => inl NoValidHours
    | inr (h :: hs) => inr (sorted_set (h :: hs))
    end.
Proof.
  unfold parse_hours.
  destruct (parse_hours_loop digits (split_on COMMA hours_str) [])
    as [e|[|h hs]]; reflexivity.
Qed.
End HoursLemmas.

Lemma no_char_lines (x : char) (ls : list str) :
  forallb (fun l => negb (mem_char l x)) ls = true ->
  Forall (fun l => ~ In x l) ls.
Proof.
  intros H. apply Forall_forall. intros l Hl G.
  rewrite forallb_forall in H. specialize (H l Hl).
  apply negb_true_iff in H.
  assert (T : mem_char l x = true).
  { apply existsb_exists. exists x. split; [exact G | apply N.eqb_refl]. }
  congruence.
Qed.

(** ** [daterange] and the requests of the batch *)

Lemma seq_dates_sorted (start : Z) (n k : nat) :
  StronglySorted Z.lt (map (fun i => (start + Z.of_nat i)%Z) (seq k n)).
Proof.
  revert k; induction n as [|n IH]; intros k; cbn [seq map]; constructor.
  - apply IH.
  - apply Forall_forall. intros x Hx. apply in_map_iff in Hx as [i [<- Hi]].
    apply in_seq in Hi. lia.
Qed.

Lemma map_hours_sorted (d : Z) (hours : list N) :
  StronglySorted N.lt hours ->
  StronglySorted Z.lt (map when_hours (map (fun h => (d, h)) hours)).
Proof.
  induction 1 as [|h hs S IH A]; cbn [map]; constructor; [exact IH|].
  apply Forall_forall. intros x Hx.
  apply in_map_iff in Hx as [w [<- Hw]].
  apply in_map_iff in Hw as [h' [<- Hh']].
  rewrite Forall_forall in A. specialize (A h' Hh').
  unfold when_hours. cbn [fst snd]. lia.
Qed.

Lemma batch_whens_sorted (dates : list Z) (hours : list N) :
  StronglySorted Z.lt dates -> StronglySorted N.lt hours ->
  Forall (fun h => (h <= 23)%N) hours ->
  StronglySorted Z.lt (map when_hours (batch_whens dates hours)).
Proof.
  intros Sd Sh B. induction Sd as [|d ds S IH A]; [constructor|].
  unfold batch_whens in *. cbn [flat_map]. rewrite map_app.
  apply StronglySorted_app_Z; [now apply map_hours_sorted | exact IH|].
  intros x y Hx Hy.
  apply in_map_iff in Hx as [w [<- Hw]].
  apply in_map_iff in Hw as [h [<- Hh]].
  apply in_map_iff in Hy as [w' [<- Hw']].
  apply in_flat_map in Hw' as [d' [Hd' Hw']].
  apply in_map_iff in Hw' as [h' [<- Hh']].
  rewrite Forall_forall in A, B. specialize (A d' Hd'). specialize (B h Hh).
  unfold when_hours. cbn [fst snd]. lia.
Qed.

Lemma batch_whens_length (dates : list Z) (hours : list N) :
  length (batch_whens dates hours) = length dates * length hours.
Proof.
  unfold batch_whens. induction dates as [|d ds IH]; [reflexivity|].
  cbn [flat_map length]. now rewrite length_app, length_map, IH.
Qed.

Lemma parse_hours_loop_error (digits : digit_table) (tokens : list str) :
  forall (hours : list N) (e : hours_error),
    parse_hours_loop digits tokens hours = inl e ->
    e <> NoValidHours /\ e <> EndBeforeStart.
Proof.
  induction tokens as [|t ts IH]; intros hours e; [discriminate|].
  rewrite parse_hours_loop_cons.
  destruct (token_hours digits t) as [e'|hs] eqn:T; [|apply IH].
  intros H. inversion H; subst e'. clear H.
  unfold token_hours in T. destruct (strip t) as [|c u]; [discriminate|].
  destruct (negb _ || negb _);
    [inversion T; split; discriminate|].
  destruct (int_of_digits digits _) as [h|];
    [|inversion T; split; discriminate].
  destruct (h <=? 23)%N; [discriminate|].
  inversion T; split; discriminate.
Qed.

Lemma flat_map_values_blank (digits : digit_table) (tokens : list str) :
  Forall (token_ok digits) tokens ->
  (flat_map (token_values digits) tokens = []
   <-> forallb is_blank tokens = true).
Proof.
  induction 1 as [|t ts [hs Hhs] Hts IH]; [split; reflexivity|].
  cbn [flat_map forallb]. unfold token_values at 1. rewrite Hhs.
  rewrite andb_true_iff, <- IH, <- (token_hours_nil_iff digits t), Hhs.
  split.
  - intros H. apply app_eq_nil in H as [-> H]. now split.
  - intros [H1 H2]. inversion H1. now rewrite H2.
Qed.

Lemma blank_tokens_ok (digits : digit_table) (tokens : list str) :
  forallb is_blank tokens = true -> Forall (token_ok digits) tokens.
Proof.
  intros H. apply Forall_forall. intros t Ht.
  rewrite forallb_forall in H. exists [].
  apply token_hours_nil_iff. now apply H.
Qed.

Lemma daterange_ok (start_date end_date : date) (dates : list date) :
  daterange start_date end_date = inr dates ->
  (start_date <= end_date)%Z
  /\ dates = map (fun i => (start_date + Z.of_nat i)%Z)
                 (seq 0 (Z.to_nat (end_date - start_date + 1))).
Proof.
  unfold daterange. destruct (Z.ltb_spec end_date start_date) as [Hlt|Hge];
    [discriminate|].
  intros H. inversion H. split; [exact Hge | reflexivity].
Qed.

(** ** The written file *)

Lemma str_eqb_eq (a b : str) : str_eqb a b = true <-> a = b.
Proof.
  unfold str_eqb. destruct (list_eq_dec N.eq_dec a b); split;
    congruence.
Qed.

Lemma header_block_tab_lines (body : str) :
  split_on LF (header_block [TAB] ++ body)
  = BORDER
    :: join [TAB] [lit "PRES"; lit "HGHT"; lit "TEMP"; lit "DWPT"; lit "RELH";
                   lit "MIXR"; lit "DRCT"; lit "SKNT"; lit "THTA"; lit "THTE";
                   lit "THTV"]
    :: join [TAB] [lit "hPa"; lit "m"; lit "C"; lit "C"; lit "%"; lit "g/kg";
                   lit "deg"; lit "knot"; lit "K"; lit "K"; lit "K"]
    :: BORDER :: split_on LF body.
Proof.
  unfold header_block.
  change (str_eqb [TAB] (lit ",")) with false. cbv iota beta zeta.
  repeat rewrite <- app_assoc. cbn [app].
  repeat (rewrite split_on_app_sep
           by (apply forallb_neq_not_In; vm_compute; reflexivity)).
  reflexivity.
Qed.

Lemma header_block_comma_lines (body : str) :
  split_on LF (header_block [COMMA] ++ body)
  = BORDER
    :: lit "PRES,HGHT,TEMP,DWPT,RELH,MIXR,DRCT,SKNT,THTA,THTE,THTV"
    :: lit "hPa,m,C,C,%,g/kg,deg,knot,K,K,K"
    :: BORDER :: split_on LF body.
Proof.
  unfold header_block.
  change (str_eqb [COMMA] (lit ",")) with true. cbv iota beta zeta.
  repeat rewrite <- app_assoc. cbn [app].
  repeat (rewrite split_on_app_sep
           by (apply forallb_neq_not_In; vm_compute; reflexivity)).
  reflexivity.
Qed.

Lemma line_triple_one_token (F : Type) (float : str -> option F) (t : str) :
  split_ws t = [t] -> line_triple float t = [].
Proof. intros H. unfold line_triple. now rewrite H. Qed.

Lemma line_triple_first_rejected (F : Type) (float : str -> option F)
      (line a : str) (rest : list str) :
  split_ws line = a :: rest -> float a = None -> line_triple float line = [].
Proof.
  intros H Ha. unfold line_triple. rewrite H.
  destruct rest as [|b [|c r]]; try reflexivity. now rewrite Ha.
Qed.

(** ** The name candidate *)

Lemma str_eqb_refl (a : str) : str_eqb a a = true.
Proof. now apply str_eqb_eq. Qed.

(** [index] finds the first position: the element is there, and not
    before. *)
Lemma index_Some (tokens : list str) (x : str) :
  forall i : nat,
    index tokens x = Some i ->
    i < length tokens /\ ~ In x (firstn i tokens).
Proof.
  induction tokens as [|t ts IH]; intros i; cbn [index]; [discriminate|].
  destruct (str_eqb t x) eqn:E.
  - intros [= <-]. split; [simpl; lia | simpl; tauto].
  - destruct (index ts x) as [j|] eqn:J; [|discriminate].
    cbn [option_map]. intros [= <-].
    destruct (IH j eq_refl) as [Hj Hn]. split; [simpl; lia|].
    cbn [firstn]. intros [Ht|Hin]; [|contradiction].
    subst t. now rewrite str_eqb_refl in E.
Qed.

Lemma firstn_skipn_In (A : Type) (l : list A) (a b : nat) (y : A) :
  In y (firstn b (skipn a l)) -> In y (firstn (a + b) l).
Proof.
  revert l; induction a as [|a IH]; intros l H; [exact H|].
  destruct l as [|x l]; [now rewrite firstn_nil in H|].
  cbn [Nat.add firstn]. right. now apply IH.
Qed.

Lemma firstn_skipn_nonempty (A : Type) (l : list A) (a b : nat) :
  a < length l -> 0 < b -> firstn b (skipn a l) <> [].
Proof.
  intros Ha Hb H. apply (f_equal (@length A)) in H.
  rewrite length_firstn, length_skipn in H. simpl in H. lia.
Qed.

(** ** Fields of the normalised lines *)


(** * The stated properties *)

(** ** Block Extractor *)

(** C1.  A document whose text (line ends normalised) is
    [pre ++ START_MARKER ++ body ++ END_MARKER ++ post], where the header
    marker first occurs at [pre], the end marker first occurs after the
    header right behind [body], and [body] consists of the lines
    [lead ++ data ++ trail] joined by newlines, with [lead] and [trail]
    all blank and [data] empty or starting and ending with a non-blank
    line: [extract_block] returns exactly the lines [data], in order,
    interior blank lines included. *)
Theorem extract_block_returns_data_lines
        (doc pre post : str) (lead data trail : list str) :
  normalize_newlines doc
  = pre ++ START_MARKER ++ join [LF] (lead ++ data ++ trail)
        ++ END_MARKER ++ post ->
  first_occurrence START_MARKER (normalize_newlines doc) (length pre) = true ->
  first_occurrence END_MARKER
    (join [LF] (lead ++ data ++ trail) ++ END_MARKER ++ post)
    (length (join [LF] (lead ++ data ++ trail))) = true ->
  forallb (fun l => negb (mem_char l LF)) (lead ++ data ++ trail) = true ->
  forallb is_blank lead = true ->
  forallb is_blank trail = true ->
  edges_nonblank data = true ->
  extract_block doc = Ok data.
Proof.
  intros E Hstart Hend Hlf Hlead Htrail Hdata.
  rewrite (extract_block_located doc pre _ post E Hstart Hend).
  f_equal. now apply trim_split_join.
Qed.

(** C2.  When the header marker does not occur in the document text
    (the text the search runs on, line ends normalised), [extract_block]
    raises the header error, the specification's
    [FormatError("header marker not found")]; when the header marker
    occurs, first at [pre], and the end marker does not occur in the rest
    of the text after it, [extract_block] raises the end-marker error,
    the specification's [FormatError("end marker not found")].  In both
    cases the result is an error and no block.  For a document without
    CR the text searched is the document itself. *)
Theorem extract_block_missing_marker (doc : str) :
  (occurs START_MARKER (normalize_newlines doc) = false ->
   extract_block doc = Raise header_not_found
   /\ forall lines : list str, extract_block doc <> Ok lines)
  /\ (forall pre rest : str,
         normalize_newlines doc = pre ++ START_MARKER ++ rest ->
         first_occurrence START_MARKER (normalize_newlines doc) (length pre)
         = true ->
         occurs END_MARKER rest = false ->
         extract_block doc = Raise end_not_found
         /\ forall lines : list str, extract_block doc <> Ok lines)
  /\ (mem_char doc CR = false -> normalize_newlines doc = doc).
Proof.
  split; [|split].
  - intros H. rewrite (extract_block_no_header doc H).
    split; [reflexivity | discriminate].
  - intros pre rest E H1 H2.
    rewrite (extract_block_no_end doc pre rest E H1 H2).
    split; [reflexivity | discriminate].
  - apply normalize_newlines_no_CR.
Qed.

(** C6.  Line ends are normalised before the markers are searched: the
    result depends on the normalised text only, and a document written
    with LF line ends gives the same result when it is written with CR+LF
    or with bare CR line ends. *)
Theorem extract_block_line_endings (d : str) :
  mem_char d CR = false ->
  extract_block (to_crlf d) = extract_block d
  /\ extract_block (to_cr d) = extract_block d
  /\ extract_block (normalize_newlines d) = extract_block d.
Proof.
  intros H. unfold extract_block.
  rewrite normalize_newlines_idem.
  rewrite (normalize_newlines_to_crlf d H), (normalize_newlines_to_cr d H).
  rewrite (normalize_newlines_no_CR d H). auto.
Qed.

(** ** Table Normalizer *)

(** C3.  For every line list and separator the normalised text is the
    lines emitted for the input lines, in order, joined by single
    newlines, with one newline appended; a line emits its tokens joined
    by the separator as one line when it has at least one token, and no
    line when it is empty after trimming, which is the same as having no
    token. *)
Theorem normalize_lines_emits (lines : list str) (sep : str) :
  normalize_lines lines sep
  = join [LF] (flat_map (emitted sep) lines) ++ [LF]
  /\ (forall line : str,
         emitted sep line
         = match split_ws line with
           | [] => []
           | tokens => [join sep tokens]
           end)
  /\ (forall line : str, strip line = [] <-> split_ws line = []).
Proof.
  split; [apply normalize_lines_spec|].
  split; [reflexivity | apply strip_nil_iff_no_token].
Qed.

(** C5.  With the comma or the tab as separator, normalising is
    idempotent on its own output: the normalised text split into lines
    again and normalised again is the same text. *)
Theorem normalize_lines_idempotent (lines : list str) (sep : str) :
  sep = [COMMA] \/ sep = [TAB] ->
  normalize_lines (split_on LF (normalize_lines lines sep)) sep
  = normalize_lines lines sep.
Proof.
  intros Hsep. rewrite (normalize_lines_spec lines sep).
  pose proof (flat_map_emitted_stable sep lines Hsep) as Hst.
  set (outs := flat_map (emitted sep) lines) in *.
  rewrite normalize_lines_spec. f_equal. f_equal.
  destruct outs as [|o outs].
  - reflexivity.
  - rewrite split_on_join_newline.
    + rewrite flat_map_app, flat_map_emitted_fixed by assumption.
      apply app_nil_r.
    + discriminate.
    + eapply Forall_impl; [|exact Hst]. now intros a [_ Ha].
Qed.

(** C10.  When no input line has a non-blank character (the empty list
    included) the normalised text is a single newline; for every input
    it ends in a newline and is not empty. *)
Theorem normalize_lines_blank_input (lines : list str) (sep : str) :
  (forallb is_blank lines = true -> normalize_lines lines sep = [LF])
  /\ (exists body : str, normalize_lines lines sep = body ++ [LF])
  /\ normalize_lines lines sep <> [].
Proof.
  rewrite normalize_lines_spec. split; [|split].
  - intros H. now rewrite flat_map_emitted_blank.
  - eexists. reflexivity.
  - intros E. apply app_eq_nil in E as [_ E]. discriminate.
Qed.

(** ** Profile Parser *)

(** C4.  The three sequences returned for a line list are the first,
    second and third components of the triples contributed by the lines,
    in line order, where a line contributes one triple when its first
    three tokens exist and all convert, and nothing otherwise; the three
    sequences have the same length. *)
Theorem parse_profiles_triples (F : Type) (float : str -> option F)
        (lines : list str) :
  let triples := flat_map (line_triple float) lines in
  parse_profiles float lines
  = (map (fun t => fst (fst t)) triples,
     map (fun t => snd (fst t)) triples,
     map (fun t => snd t) triples)
  /\ length (fst (fst (parse_profiles float lines)))
     = length (snd (fst (parse_profiles float lines)))
  /\ length (snd (fst (parse_profiles float lines)))
     = length (snd (parse_profiles float lines)).
Proof.
  intros triples. unfold parse_profiles.
  rewrite parse_loop_triples. fold triples. simpl.
  rewrite !length_map. auto.
Qed.

(** ** Station Name Resolver *)

(** C7.  For a document whose heading has the inner text
    ["15420 LRBS Bucuresti Inmh-Banesa Observations at 00Z 02 Nov 2025"]
    the resolved name is ["Bucuresti_Inmh-Banesa"], for an entity decoder
    that leaves text without an ampersand as it is: the token
    ["Observations"] is the fifth one, and the tokens kept are the third
    and the fourth, joined by an underscore. *)
Theorem station_name_example (html_unescape : str -> str)
        (doc station_id : str) :
  (forall s : str, mem_char s AMP = false -> html_unescape s = s) ->
  heading_inner doc heading_example ->
  extract_station_name html_unescape doc station_id
  = lit "Bucuresti_Inmh-Banesa"
  /\ index (split_ws heading_example) (lit "Observations") = Some 4
  /\ firstn (4 - 2) (skipn 2 (split_ws heading_example))
     = [lit "Bucuresti"; lit "Inmh-Banesa"]
  /\ name_from_header (strip heading_example)
     = join [UNDERSCORE] [lit "Bucuresti"; lit "Inmh-Banesa"].
Proof.
  intros Hun Hdoc.
  rewrite (extract_station_name_heading html_unescape doc heading_example
             station_id Hdoc).
  rewrite (Hun heading_example eq_refl).
  repeat split; vm_compute; reflexivity.
Qed.

(** C8 (as amended).  When no heading is located, the resolved name is
    the station ID after the sanitising step: every maximal run of
    characters outside letters, digits, underscore and hyphen replaced by
    one underscore, leading and trailing underscores trimmed, and the
    station ID itself when that leaves nothing.  It is the station ID
    unchanged when the station ID consists of letters, digits,
    underscores and hyphens and neither starts nor ends with an
    underscore. *)
Theorem station_name_no_heading (html_unescape : str -> str)
        (raw_html station_id : str) :
  heading_found raw_html = false ->
  extract_station_name html_unescape raw_html station_id
  = match strip_chars (re_sub_runs name_char [UNDERSCORE] false station_id)
                      [UNDERSCORE] with
    | [] => station_id
    | name => name
    end
  /\ (clean_name station_id = true ->
      extract_station_name html_unescape raw_html station_id = station_id).
Proof.
  intros H. rewrite (extract_station_name_no_heading _ _ _ H).
  split; [reflexivity | apply sanitize_clean].
Qed.

(** C9.  When the heading's inner text, decoded and trimmed, has fewer
    than three tokens, the resolved name is that whole text sanitised,
    and the station ID only when sanitising leaves nothing. *)
Theorem station_name_short_heading (html_unescape : str -> str)
        (doc inner station_id : str) :
  heading_inner doc inner ->
  length (split_ws (strip (html_unescape inner))) < 3 ->
  extract_station_name html_unescape doc station_id
  = match strip_chars
            (re_sub_runs name_char [UNDERSCORE] false
                         (strip (html_unescape inner)))
            [UNDERSCORE] with
    | [] => station_id
    | name => name
    end.
Proof.
  intros Hdoc Hshort.
  rewrite (extract_station_name_heading _ _ _ _ Hdoc).
  now rewrite name_from_header_short.
Qed.

(** * Further properties *)


(** X2.  A block is returned only for a text that holds the header marker
    and, behind its first occurrence, the end marker; the block is the
    text between the two first occurrences, split into lines and trimmed
    of blank edge lines, so it never starts or ends with a blank line. *)
Theorem extract_block_ok_inv (doc : str) (lines : list str) :
  extract_block doc = Ok lines ->
  exists pre body post : str,
    normalize_newlines doc = pre ++ START_MARKER ++ body ++ END_MARKER ++ post
    /\ first_occurrence START_MARKER (normalize_newlines doc) (length pre)
       = true
    /\ first_occurrence END_MARKER (body ++ END_MARKER ++ post) (length body)
       = true
    /\ lines = pop_blank_back (pop_blank_front (split_on LF body))
    /\ edges_nonblank lines = true.
Proof.
  intros H.
  assert (Hfind :
            find (normalize_newlines doc) START_MARKER 0 <> (-1)%Z
            /\ find (normalize_newlines doc) END_MARKER
                 (find (normalize_newlines doc) START_MARKER 0
                  + Z.of_nat (length START_MARKER)) <> (-1)%Z).
  { unfold extract_block in H. cbv zeta in H.
    destruct (Z.eqb_spec (find (normalize_newlines doc) START_MARKER 0) (-1))
      as [|N1]; [discriminate|].
    destruct (Z.eqb_spec
                (find (normalize_newlines doc) END_MARKER
                   (find (normalize_newlines doc) START_MARKER 0
                    + Z.of_nat (length START_MARKER))) (-1))
      as [|N2]; [discriminate|].
    split; assumption. }
  destruct Hfind as [N1 N2].
  destruct (tag_pair_found (normalize_newlines doc) START_MARKER END_MARKER
              (Z.of_nat (length START_MARKER)) eq_refl N1 N2)
    as [pre [body [post [E [H1 H2]]]]].
  exists pre, body, post.
  rewrite (extract_block_located doc pre body post E H1 H2) in H.
  inversion H; subst lines.
  repeat split; try assumption. apply trimmed_edges.
Qed.


(** X4.  The resolved station name is either the station ID as it was
    given, or a non-empty string of letters, digits, underscores and
    hyphens that neither starts nor ends with an underscore; this holds
    for every page and every entity decoder. *)
Theorem station_name_safe_or_id (html_unescape : str -> str)
        (raw_html station_id : str) :
  extract_station_name html_unescape raw_html station_id = station_id
  \/ (extract_station_name html_unescape raw_html station_id <> []
      /\ clean_name (extract_station_name html_unescape raw_html station_id)
         = true).
Proof.
  destruct (extract_station_name_sanitize html_unescape raw_html station_id)
    as [raw_name ->].
  apply sanitize_safe.
Qed.

(** X5.  No line of a returned block holds a line feed or a carriage
    return, whatever line ends the page was written with. *)
Theorem extract_block_lines_no_newline (doc : str) (lines : list str) :
  extract_block doc = Ok lines ->
  Forall (fun l => mem_char l LF = false /\ mem_char l CR = false) lines.
Proof.
  intros H. destruct (extract_block_ok_lines doc lines H) as [a [b ->]].
  apply pop_blank_back_Forall, pop_blank_front_Forall.
  apply Forall_forall. intros l Hl. split.
  - pose proof (split_on_pieces LF
                  (slice (normalize_newlines doc) a b) LF (or_introl eq_refl))
      as Hp.
    rewrite Forall_forall in Hp. now apply Hp.
  - assert (Hcr : mem_char (slice (normalize_newlines doc) a b) CR = false).
    { apply mem_char_slice. unfold normalize_newlines. apply replace_cr_no_CR. }
    pose proof (split_on_pieces LF _ CR (or_intror Hcr)) as Hp.
    rewrite Forall_forall in Hp. now apply Hp.
Qed.

(** X6.  Reading a normalised table back: the text written with the tab
    as separator, split into lines, gives [parse_profiles] the same
    profile as the lines it was made from; the text written with the
    comma gives it the empty profile, since every line is one token. *)
Theorem normalized_table_read_back (F : Type) (float : str -> option F)
        (lines : list str) :
  parse_profiles float (split_on LF (normalize_lines lines [TAB]))
  = parse_profiles float lines
  /\ parse_profiles float (split_on LF (normalize_lines lines [COMMA]))
     = ([], [], []).
Proof.
  split.
  - destruct (split_normalized lines [TAB] (or_intror eq_refl))
      as [blanks [E B]].
    rewrite !parse_profiles_flat, E, flat_map_app.
    rewrite (line_triple_blank F float blanks B), app_nil_r.
    rewrite flat_map_flat_map. f_equal.
    apply flat_map_ext. intros l. apply line_triple_emitted_tab.
  - destruct (split_normalized lines [COMMA] (or_introl eq_refl))
      as [blanks [E B]].
    rewrite parse_profiles_flat, E, flat_map_app.
    rewrite (line_triple_blank F float blanks B), app_nil_r.
    rewrite flat_map_flat_map.
    now rewrite flat_map_triple_emitted_comma.
Qed.

(** X7.  The request URL determines the year, month, day and hour of the
    requested sounding and nothing else of the time: for one station,
    two valid timestamps give the same URL exactly when they agree on
    these four fields (the minute is not part of the request).  Holds
    for every [quote_plus] that leaves strings of ASCII digits as they
    are. *)
Theorem build_url_same_iff (quote_plus : str -> str) (station_id : str)
        (w1 w2 : datetime) :
  (forall s : str, forallb ascii_digit s = true -> quote_plus s = s) ->
  valid_datetime w1 = true ->
  valid_datetime w2 = true ->
  build_url quote_plus station_id w1 = build_url quote_plus station_id w2
  <-> (dt_year w1 = dt_year w2 /\ dt_month w1 = dt_month w2
       /\ dt_day w1 = dt_day w2 /\ dt_hour w1 = dt_hour w2).
Proof.
  intros Hqp V1 V2.
  destruct (valid_datetime_bounds w1 V1) as [Hy1 [Hm1 [Hd1 Hh1]]].
  destruct (valid_datetime_bounds w2 V2) as [Hy2 [Hm2 [Hd2 Hh2]]].
  split.
  - intros H. unfold build_url, urlencode in H.
    cbn [map fst snd join] in H.
    repeat rewrite <- app_assoc in H.
    do 12 apply app_inv_head in H.
    assert (Hq1 : forall w n, quote_plus (format_0d w n) = format_0d w n)
      by (intros w n; apply Hqp, format_0d_ascii).
    assert (Hq2 : forall w n v m,
               quote_plus (format_0d w n ++ format_0d v m)
               = format_0d w n ++ format_0d v m).
    { intros w n v m. apply Hqp.
      now rewrite forallb_app, !format_0d_ascii. }
    rewrite !Hq1, !Hq2 in H.
    apply format_0d_app_inj in H as [Ey H]; [|assumption..].
    do 3 apply app_inv_head in H.
    apply format_0d_app_inj in H as [Em H]; [|assumption..].
    do 3 apply app_inv_head in H.
    rewrite <- !app_assoc in H.
    apply format_0d_app_inj in H as [Ed H]; [|assumption..].
    apply format_0d_app_inj in H as [Eh _]; [|assumption..].
    now repeat split.
  - intros [Ey [Em [Ed Eh]]]. unfold build_url. now rewrite Ey, Em, Ed, Eh.
Qed.

(** X8.  A timestamp returned by [parse_date_time] has minute 0 and an
    hour of at most 23, and its year, month and day are those of the
    [strptime] result of one of the three date formats. *)
Theorem parse_date_time_ok (E : Type) (strptime : str -> str -> E + datetime)
        (digits : digit_table) (date_str time_str : str) (w : datetime) :
  parse_date_time strptime digits date_str time_str = inr w ->
  dt_minute w = 0%N /\ (dt_hour w <= 23)%N
  /\ exists (f : str) (d : datetime),
       In f date_formats /\ strptime date_str f = inr d
       /\ dt_year w = dt_year d /\ dt_month w = dt_month d
       /\ dt_day w = dt_day d.
Proof.
  unfold parse_date_time. cbv zeta. fold date_formats.
  destruct (try_formats strptime date_str date_formats None) as [le|d] eqn:T;
    [discriminate|].
  destruct (negb _ || negb _); [discriminate|].
  destruct (int_of_digits digits (slice (time_digits time_str) 0 2))
    as [hour|]; [|discriminate].
  destruct (int_of_digits digits (slice (time_digits time_str) 2 4))
    as [minute|]; [|discriminate].
  intros H. apply replace_hour_minute_ok in H
    as [Hh [Hm [Hle [Hy [Hmo Hd]]]]].
  destruct (try_formats_inr E strptime date_str date_formats None d T)
    as [f [Hf Sf]].
  split; [exact Hm|]. split; [now rewrite Hh|].
  exists f, d. repeat split; assumption.
Qed.

(** X9.  The minutes of the time string are discarded: for two digits
    [a b] and two characters [c d] that [int] reads, the time strings
    ["abcd"] and ["ab:cd"] give the same result as ["ab"], whatever the
    value of ["cd"] (a minute of 99 included). *)
Theorem parse_date_time_minutes_ignored (E : Type)
        (strptime : str -> str -> E + datetime) (digits : digit_table)
        (date_str : str) (a b c d : char) (vc vd : N) :
  isdigit digits a = true -> isdigit digits b = true ->
  decimal digits c = Some vc -> decimal digits d = Some vd ->
  parse_date_time strptime digits date_str [a; b; c; d]
  = parse_date_time strptime digits date_str [a; b]
  /\ parse_date_time strptime digits date_str ([a; b] ++ lit ":" ++ [c; d])
     = parse_date_time strptime digits date_str [a; b].
Proof.
  intros Ha Hb Hc Hd.
  pose proof (decimal_isdigit digits c vc Hc) as Ic.
  pose proof (decimal_isdigit digits d vd Hd) as Id.
  assert (D2 : forallb (isdigit digits) [a; b] = true)
    by (cbn [forallb]; now rewrite Ha, Hb).
  assert (D2' : forallb (isdigit digits) [c; d] = true)
    by (cbn [forallb]; now rewrite Ic, Id).
  assert (D4 : forallb (isdigit digits) [a; b; c; d] = true)
    by (cbn [forallb]; now rewrite Ha, Hb, Ic, Id).
  assert (R4 : replace [a; b; c; d] (lit ":") [] = [a; b; c; d])
    by exact (replace_remove_absent 58%N _ (digits_no_colon digits _ D4)).
  assert (R5 : replace ([a; b] ++ lit ":" ++ [c; d]) (lit ":") []
               = [a; b; c; d])
    by exact (replace_remove_one 58%N [a; b] [c; d]
                (digits_no_colon digits _ D2) (digits_no_colon digits _ D2')).
  assert (R2 : replace [a; b] (lit ":") [] = [a; b])
    by exact (replace_remove_absent 58%N _ (digits_no_colon digits _ D2)).
  assert (T4 : time_digits [a; b; c; d] = [a; b; c; d]).
  { unfold time_digits. rewrite R4.
    now rewrite (strip_digits digits _ D4). }
  assert (T5 : time_digits ([a; b] ++ lit ":" ++ [c; d]) = [a; b; c; d]).
  { unfold time_digits. rewrite R5.
    now rewrite (strip_digits digits _ D4). }
  assert (T2 : time_digits [a; b] = [a; b; 48; 48]%N).
  { unfold time_digits. rewrite R2.
    now rewrite (strip_digits digits _ D2). }
  rewrite (parse_date_time_digits E strptime digits date_str _ a b c d vc vd
             T4 Ha Hb Hc Hd).
  rewrite (parse_date_time_digits E strptime digits date_str _ a b c d vc vd
             T5 Ha Hb Hc Hd).
  rewrite (parse_date_time_digits E strptime digits date_str _ a b 48%N 48%N 0%N 0%N
             T2 Ha Hb (decimal_zero digits) (decimal_zero digits)).
  split; reflexivity.
Qed.

(** X10.  When one of the date formats parses the date string, the
    result is the time-format error exactly when the time string fails
    the format test: with colons removed and whitespace trimmed it must
    be one, two or four characters, all digits.  A time of three digits
    is rejected, and a colon may stand anywhere. *)
Theorem parse_date_time_format_error (E : Type)
        (strptime : str -> str -> E + datetime) (digits : digit_table)
        (date_str time_str : str) :
  (exists (f : str) (d : datetime),
      In f date_formats /\ strptime date_str f = inr d) ->
  parse_date_time strptime digits date_str time_str
  = inl (TimeFormat time_str)
  <-> time_accepted digits time_str = false.
Proof.
  intros Hdate.
  destruct (try_formats_some E strptime date_str date_formats None Hdate)
    as [d T].
  unfold parse_date_time, time_accepted. cbv zeta. fold date_formats.
  rewrite T. rewrite (time_digits_length time_str).
  pose proof (time_digits_length time_str) as L. cbv zeta in L.
  pose proof (time_digits_isdigit digits time_str) as I. cbv zeta in I.
  destruct ((length (strip (replace time_str (lit ":") [])) =? 1)
            || (length (strip (replace time_str (lit ":") [])) =? 2)
            || (length (strip (replace time_str (lit ":") [])) =? 4)) eqn:Len.
  - apply Nat.eqb_eq in L. rewrite (I L). cbn [negb orb andb].
    destruct (forallb (isdigit digits) (strip (replace time_str (lit ":") [])));
      cbn [negb].
    + split; [|discriminate].
      destruct (int_of_digits digits _); [|discriminate].
      destruct (int_of_digits digits _); [|discriminate].
      unfold replace_hour_minute. destruct (_ <=? 23)%N; discriminate.
    + split; reflexivity.
  - cbn [negb orb andb]. split; reflexivity.
Qed.

(** X11.  The batch tool and the single tool reject the same date
    strings, with the same error: [parse_date_only] fails on a date
    string exactly when [parse_date_time] fails on it with the date
    error, whatever the time string.  When the two formats they try in
    a different order do not give different readings of the string, the
    timestamp of [parse_date_time] has the year, month and day of the
    [strptime] result whose date [parse_date_only] returns. *)
Theorem date_parsers_agree (E D : Type)
        (strptime : str -> str -> E + datetime) (date_of : datetime -> D)
        (digits : digit_table) (date_str time_str : str) :
  (forall e : time_error E,
      parse_date_only strptime date_of date_str = inl e <->
      (parse_date_time strptime digits date_str time_str = inl e
       /\ exists le, e = CouldNotParseDate date_str le))
  /\ ((forall d1 d2,
          strptime date_str (lit "%Y%m%d") = inr d1 ->
          strptime date_str (lit "%Y-%m-%d") = inr d2 -> d1 = d2) ->
      forall w : datetime,
        parse_date_time strptime digits date_str time_str = inr w ->
        exists d : datetime,
          parse_date_only strptime date_of date_str = inr (date_of d)
          /\ dt_year w = dt_year d /\ dt_month w = dt_month d
          /\ dt_day w = dt_day d).
Proof.
  split.
  - intros e. unfold parse_date_only, parse_date_time. cbv zeta.
    pose proof (try_formats_fail_swap E strptime date_str
                  (lit "%Y-%m-%d") (lit "%Y%m%d") (lit "%d.%m.%Y")) as Sw.
    destruct (try_formats strptime date_str
                [lit "%Y-%m-%d"; lit "%Y%m%d"; lit "%d.%m.%Y"] None)
      as [le|d] eqn:T1.
    + rewrite (proj1 (Sw le) eq_refl). split.
      * intros H. inversion H; subst. split; [reflexivity | now exists le].
      * intros [H _]. inversion H; subst. reflexivity.
    + split; [discriminate|]. intros [H [le ->]].
      destruct (try_formats strptime date_str
                  [lit "%Y%m%d"; lit "%Y-%m-%d"; lit "%d.%m.%Y"] None)
        as [le'|d'] eqn:T2.
      * pose proof (proj2 (Sw le') eq_refl) as Habs. discriminate.
      * destruct (negb _ || negb _); [discriminate|].
        destruct (int_of_digits digits _); [|discriminate].
        destruct (int_of_digits digits _); [|discriminate].
        unfold replace_hour_minute in H.
        destruct (_ <=? 23)%N; discriminate.
  - intros Hex w Hw.
    unfold parse_date_only, parse_date_time in *. cbv zeta in *.
    rewrite <- (try_formats_swap E strptime date_str
                  (lit "%Y%m%d") (lit "%Y-%m-%d") (lit "%d.%m.%Y") Hex).
    destruct (try_formats strptime date_str
                [lit "%Y%m%d"; lit "%Y-%m-%d"; lit "%d.%m.%Y"] None)
      as [le|d]; [discriminate|].
    destruct (negb _ || negb _); [discriminate|].
    destruct (int_of_digits digits _); [|discriminate].
    destruct (int_of_digits digits _); [|discriminate].
    apply replace_hour_minute_ok in Hw as [_ [_ [_ [Hy [Hm Hd]]]]].
    exists d. repeat split; assumption.
Qed.

(** X12.  The hours returned by [parse_hours] are never an empty list;
    they are in strictly increasing order, so without repetition, each
    at most 23, and at most 24 in number. *)
Theorem parse_hours_ok (digits : digit_table) (hours_str : str)
        (hours : list N) :
  parse_hours digits hours_str = inr hours ->
  hours <> [] /\ StronglySorted N.lt hours
  /\ Forall (fun h => (h <= 23)%N) hours /\ length hours <= 24.
Proof.
  rewrite parse_hours_tokens.
  destruct (parse_hours_loop digits (split_on COMMA hours_str) [])
    as [e|[|h hs]] eqn:L; try discriminate.
  intros [= <-].
  apply parse_hours_loop_ok in L as [_ L]. cbn [app] in L.
  assert (B : Forall (fun x => (x <= 23)%N) (sorted_set (h :: hs))).
  { apply Forall_forall. intros x Hx. apply (proj1 (sorted_set_In _ _)) in Hx.
    rewrite L in Hx.
    pose proof (token_values_bound digits (split_on COMMA hours_str)) as B.
    rewrite Forall_forall in B. now apply B. }
  split; [|split; [|split]].
  - intros E. assert (I : In h (sorted_set (h :: hs)))
      by (apply sorted_set_In; now left).
    change (sorted_set (h :: hs) = []) in E. rewrite E in I. contradiction.
  - apply (sorted_set_sorted (h :: hs)).
  - exact B.
  - change 24 with (N.to_nat (23 + 1 - 0)).
    apply sorted_bounded_length; [apply (sorted_set_sorted (h :: hs))|].
    eapply Forall_impl; [|exact B]. intros a Ha. simpl in Ha. lia.
Qed.

(** X13.  Only the set of tokens matters to [parse_hours]: when an hours
    string is accepted, every string made of the same tokens, in any
    order and with any repetition, is accepted with the same hours. *)
Theorem parse_hours_same_tokens (digits : digit_table)
        (tokens tokens' : list str) (hours : list N) :
  tokens <> [] -> tokens' <> [] ->
  forallb (fun t => negb (mem_char t COMMA)) tokens = true ->
  forallb (fun t => negb (mem_char t COMMA)) tokens' = true ->
  (forall t, In t tokens <-> In t tokens') ->
  parse_hours digits (join [COMMA] tokens) = inr hours ->
  parse_hours digits (join [COMMA] tokens') = inr hours.
Proof.
  intros Hne Hne' Hc Hc' Hsame.
  rewrite !parse_hours_tokens.
  rewrite !split_on_join by (assumption || now apply no_char_lines).
  destruct (parse_hours_loop digits tokens []) as [e|[|h hs]] eqn:L;
    try discriminate.
  intros [= <-].
  apply parse_hours_loop_ok in L as [Hok L]. cbn [app] in L.
  assert (Hok' : Forall (token_ok digits) tokens').
  { apply Forall_forall. intros t Ht. rewrite Forall_forall in Hok.
    now apply Hok, Hsame. }
  assert (L' : parse_hours_loop digits tokens' []
               = inr (flat_map (token_values digits) tokens'))
    by (apply parse_hours_loop_ok; split; [exact Hok' | reflexivity]).
  rewrite L'.
  assert (Hmem : forall x, In x (h :: hs)
                           <-> In x (flat_map (token_values digits) tokens')).
  { intros x. rewrite L, !in_flat_map.
    split; intros [t [Ht Hx]]; exists t; (split; [now apply Hsame | exact Hx]). }
  destruct (flat_map (token_values digits) tokens') as [|h' hs'] eqn:F.
  - exfalso. apply (proj1 (Hmem h)). now left.
  - f_equal.
    apply (sorted_lt_unique (sorted_set (h' :: hs')) (sorted_set (h :: hs)));
      try apply sorted_set_sorted.
    intros x. rewrite !sorted_set_In. symmetry. apply Hmem.
Qed.

(** X14.  [parse_hours] raises its no-hours error exactly when every
    piece of the string between commas is blank: for the empty string,
    for white space, for commas alone. *)
Theorem parse_hours_no_hours_iff (digits : digit_table) (hours_str : str) :
  parse_hours digits hours_str = inl NoValidHours
  <-> forallb is_blank (split_on COMMA hours_str) = true.
Proof.
  rewrite parse_hours_tokens.
  destruct (parse_hours_loop digits (split_on COMMA hours_str) [])
    as [e|r] eqn:L.
  - destruct (parse_hours_loop_error digits _ _ _ L) as [Hn _].
    split.
    + intros H. inversion H. contradiction.
    + intros B.
      assert (L' : parse_hours_loop digits (split_on COMMA hours_str) []
                   = inr (flat_map (token_values digits)
                                   (split_on COMMA hours_str)))
        by (apply parse_hours_loop_ok; split;
            [now apply blank_tokens_ok | reflexivity]).
      congruence.
  - apply parse_hours_loop_ok in L as [Hok L]. cbn [app] in L.
    rewrite <- (flat_map_values_blank digits _ Hok), <- L.
    destruct r as [|h hs]; split; try reflexivity; discriminate.
Qed.

(** X15.  [daterange] raises its error when the end date is before the
    start date; otherwise it yields each date from the start date to the
    end date, both included, once and in increasing order: one date when
    the two are equal. *)
Theorem daterange_inclusive (start_date end_date : date) :
  ((end_date < start_date)%Z ->
   daterange start_date end_date = inl EndBeforeStart)
  /\ ((start_date <= end_date)%Z ->
      exists dates : list date,
        daterange start_date end_date = inr dates
        /\ length dates = Z.to_nat (end_date - start_date + 1)
        /\ hd 0%Z dates = start_date
        /\ last dates 0%Z = end_date
        /\ StronglySorted Z.lt dates
        /\ forall d, In d dates <-> (start_date <= d <= end_date)%Z).
Proof.
  unfold daterange. split; intros H.
  - destruct (Z.ltb_spec end_date start_date); [reflexivity | lia].
  - destruct (Z.ltb_spec end_date start_date) as [Hlt|_]; [lia|].
    eexists. split; [reflexivity|].
    set (n := Z.to_nat (end_date - start_date + 1)).
    assert (Hn : n = S (Z.to_nat (end_date - start_date))) by (unfold n; lia).
    split; [now rewrite length_map, length_seq|].
    split; [rewrite Hn; cbn [seq map hd]; lia|].
    split.
    { rewrite Hn, seq_S, map_app. cbn [map]. rewrite last_last. lia. }
    split; [apply seq_dates_sorted|].
    intros d. rewrite in_map_iff. split.
    + intros [i [<- Hi]]. apply in_seq in Hi. lia.
    + intros Hd. exists (Z.to_nat (d - start_date)). split; [lia|].
      apply in_seq. lia.
Qed.

(** X16.  The requests of a batch run are made in strictly increasing
    order of time, so no timestamp is requested twice, and their number
    is the number of days from the start date to the end date, both
    included, times the number of hours. *)
Theorem batch_requests_chronological (digits : digit_table)
        (start_date end_date : date) (hours_str : str)
        (dates : list date) (hours : list N) :
  daterange start_date end_date = inr dates ->
  parse_hours digits hours_str = inr hours ->
  StronglySorted Z.lt (map when_hours (batch_whens dates hours))
  /\ length (batch_whens dates hours)
     = Z.to_nat (end_date - start_date + 1) * length hours.
Proof.
  intros Hd Hh.
  destruct (daterange_ok _ _ _ Hd) as [Hle ->].
  assert (Hs : hours <> [] /\ StronglySorted N.lt hours
               /\ Forall (fun h => (h <= 23)%N) hours).
  { rewrite parse_hours_tokens in Hh.
    destruct (parse_hours_loop digits (split_on COMMA hours_str) [])
      as [e|[|h hs]] eqn:L; try discriminate.
    injection Hh as <-.
    apply parse_hours_loop_ok in L as [_ L]. cbn [app] in L.
    split; [|split].
    - intros E. assert (I : In h (sorted_set (h :: hs)))
        by (apply sorted_set_In; now left).
      change (sorted_set (h :: hs) = []) in E. rewrite E in I. contradiction.
    - apply (sorted_set_sorted (h :: hs)).
    - apply Forall_forall. intros x Hx.
      apply (proj1 (sorted_set_In x (h :: hs))) in Hx.
      rewrite L in Hx.
      pose proof (token_values_bound digits (split_on COMMA hours_str)) as B.
      rewrite Forall_forall in B. now apply B. }
  destruct Hs as [_ [Hsorted Hbound]].
  split.
  - apply batch_whens_sorted; [apply seq_dates_sorted | assumption..].
  - now rewrite batch_whens_length, length_map, length_seq.
Qed.

(** X17.  Reading the written file back: for a converter that rejects
    the words ["PRES"] and ["hPa"], the text of a tab-separated file,
    header included, split into lines, gives [parse_profiles] the
    profile of the lines it was written from; the text of a
    comma-separated file gives it the empty profile. *)
Theorem file_content_read_back (F : Type) (float : str -> option F)
        (lines : list str) :
  float (lit "PRES") = None -> float (lit "hPa") = None ->
  parse_profiles float (split_on LF (file_content lines [TAB]))
  = parse_profiles float lines
  /\ parse_profiles float (split_on LF (file_content lines [COMMA]))
     = ([], [], []).
Proof.
  intros Hp Hu. unfold file_content. split.
  - rewrite header_block_tab_lines.
    destruct (split_normalized lines [TAB] (or_intror eq_refl))
      as [blanks [E B]].
    rewrite !parse_profiles_flat, E. cbn [flat_map].
    rewrite (line_triple_one_token F float BORDER)
      by (vm_compute; reflexivity).
    rewrite (line_triple_first_rejected F float _ (lit "PRES")
               (skipn 1 (split_ws (join [TAB]
                  [lit "PRES"; lit "HGHT"; lit "TEMP"; lit "DWPT"; lit "RELH";
                   lit "MIXR"; lit "DRCT"; lit "SKNT"; lit "THTA"; lit "THTE";
                   lit "THTV"]))))
      by (assumption || (vm_compute; reflexivity)).
    rewrite (line_triple_first_rejected F float _ (lit "hPa")
               (skipn 1 (split_ws (join [TAB]
                  [lit "hPa"; lit "m"; lit "C"; lit "C"; lit "%"; lit "g/kg";
                   lit "deg"; lit "knot"; lit "K"; lit "K"; lit "K"]))))
      by (assumption || (vm_compute; reflexivity)).
    cbn [app]. rewrite flat_map_app.
    rewrite (line_triple_blank F float blanks B), app_nil_r.
    rewrite flat_map_flat_map. f_equal.
    apply flat_map_ext. intros l. apply line_triple_emitted_tab.
  - rewrite header_block_comma_lines.
    destruct (split_normalized lines [COMMA] (or_introl eq_refl))
      as [blanks [E B]].
    rewrite parse_profiles_flat, E. cbn [flat_map].
    rewrite (line_triple_one_token F float BORDER)
      by (vm_compute; reflexivity).
    rewrite (line_triple_one_token F float
               (lit "PRES,HGHT,TEMP,DWPT,RELH,MIXR,DRCT,SKNT,THTA,THTE,THTV"))
      by (vm_compute; reflexivity).
    rewrite (line_triple_one_token F float
               (lit "hPa,m,C,C,%,g/kg,deg,knot,K,K,K"))
      by (vm_compute; reflexivity).
    cbn [app]. rewrite flat_map_app.
    rewrite (line_triple_blank F float blanks B), app_nil_r.
    rewrite flat_map_flat_map.
    now rewrite flat_map_triple_emitted_comma.
Qed.

(** X18.  The header written in front of the table is the header of the
    page re-tokenised: for the comma and for the tab, its column and
    unit lines are what [normalize_lines] makes of the second and third
    line of the header marker.  For every other separator the header is
    the tab-separated one, whatever separates the table below it. *)
Theorem header_block_matches_marker (sep_char : str) :
  ((sep_char = [COMMA] \/ sep_char = [TAB]) ->
   header_block sep_char
   = BORDER ++ [LF]
     ++ normalize_lines (firstn 2 (skipn 1 (split_on LF START_MARKER)))
                        sep_char
     ++ BORDER ++ [LF])
  /\ (sep_char <> [COMMA] -> header_block sep_char = header_block [TAB]).
Proof.
  split.
  - intros [-> | ->]; vm_compute; reflexivity.
  - intros Hne. unfold header_block.
    destruct (str_eqb sep_char (lit ",")) eqn:E.
    + apply str_eqb_eq in E. contradiction.
    + reflexivity.
Qed.

(** X19.  The name candidate of a heading with at least three tokens:
    when the token ["Observations"] first stands at the fourth place or
    later, the candidate is the tokens from the third up to it, joined by
    underscores, and does not hold that token; when it is missing, or
    stands among the first three tokens, the candidate is every token
    from the third on, a third token ["Observations"] included.  The
    heading text itself is never the candidate then. *)
Theorem name_from_header_cases (header : str) :
  3 <= length (split_ws header) ->
  (forall i : nat,
      index (split_ws header) (lit "Observations") = Some i -> 2 < i ->
      name_from_header header
      = join [UNDERSCORE] (firstn (i - 2) (skipn 2 (split_ws header)))
      /\ ~ In (lit "Observations")
              (firstn (i - 2) (skipn 2 (split_ws header))))
  /\ ((index (split_ws header) (lit "Observations") = None
       \/ exists i : nat,
            index (split_ws header) (lit "Observations") = Some i /\ i <= 2) ->
      name_from_header header
      = join [UNDERSCORE] (skipn 2 (split_ws header))).
Proof.
  intros Hlen. unfold name_from_header.
  destruct (Nat.leb_spec 3 (length (split_ws header))) as [_|]; [|lia].
  split.
  - intros i Hi Hgt. rewrite Hi.
    destruct (index_Some _ _ _ Hi) as [Hlt Hnot].
    destruct (Nat.ltb_spec 2 i) as [_|]; [|lia].
    pose proof (firstn_skipn_nonempty str (split_ws header) 2 (i - 2)
                  ltac:(lia) ltac:(lia)) as Hne.
    split.
    + destruct (firstn (i - 2) (skipn 2 (split_ws header)));
        [contradiction | reflexivity].
    + intros Hin. apply Hnot.
      replace i with (2 + (i - 2)) by lia. now apply firstn_skipn_In.
  - intros H.
    assert (Hne : skipn 2 (split_ws header) <> []).
    { intros E. apply (f_equal (@length str)) in E.
      rewrite length_skipn in E. simpl in E. lia. }
    assert (Hsel :
              (if 2 <? match index (split_ws header) (lit "Observations") with
                       | Some i => i
                       | None => length (split_ws header)
                       end
               then firstn (match index (split_ws header)
                                        (lit "Observations") with
                            | Some i => i
                            | None => length (split_ws header)
                            end - 2) (skipn 2 (split_ws header))
               else skipn 2 (split_ws header))
              = skipn 2 (split_ws header)).
    { destruct H as [-> | [i [-> Hi]]].
      - destruct (Nat.ltb_spec 2 (length (split_ws header))); [|reflexivity].
        apply firstn_all2. rewrite length_skipn. lia.
      - destruct (Nat.ltb_spec 2 i); [lia | reflexivity]. }
    rewrite Hsel.
    destruct (skipn 2 (split_ws header)); [contradiction | reflexivity].
Qed.


(** X21.  The profile of a list of lines is built line by line: the
    profile of two lists one after the other is the profile of the first
    followed, sequence by sequence, by the profile of the second; and a
    profile never has more levels than there are lines. *)
Theorem parse_profiles_concat (F : Type) (float : str -> option F)
        (xs ys : list str) :
  parse_profiles float (xs ++ ys)
  = (fst (fst (parse_profiles float xs)) ++ fst (fst (parse_profiles float ys)),
     snd (fst (parse_profiles float xs)) ++ snd (fst (parse_profiles float ys)),
     snd (parse_profiles float xs) ++ snd (parse_profiles float ys))
  /\ length (fst (fst (parse_profiles float xs))) <= length xs.
Proof.
  split.
  - rewrite !parse_profiles_flat, flat_map_app. cbn [add_triples app fst snd].
    now rewrite !map_app.
  - rewrite parse_profiles_flat. cbn [add_triples app fst]. rewrite length_map.
    induction xs as [|l ls IH]; [simpl; lia|].
    cbn [flat_map]. rewrite length_app. cbn [length].
    assert (H1 : length (line_triple float l) <= 1).
    { unfold line_triple.
      destruct (split_ws l) as [|a [|b [|c r]]]; try (simpl; lia).
      destruct (float a), (float b), (float c); simpl; lia. }
    lia.
Qed.

(** * Instances on sample inputs *)

Lemma extract_block_returns_data_lines_witness :
  extract_block example_document = Ok example_data.
Proof.
  apply (extract_block_returns_data_lines example_document
           (lit "<HTML><PRE>" ++ [LF]) (lit "</PRE></HTML>")
           example_lead example_data example_trail);
    vm_compute; reflexivity.
Defined.

Lemma extract_block_missing_marker_witness :
  extract_block (lit "<HTML></HTML>") = Raise header_not_found
  /\ extract_block example_truncated = Raise end_not_found.
Proof.
  split.
  - apply (fun H =>
             proj1 (proj1 (extract_block_missing_marker (lit "<HTML></HTML>"))
                      H)).
    vm_compute; reflexivity.
  - apply (fun E H1 H2 =>
             proj1 (proj1 (proj2 (extract_block_missing_marker
                                    example_truncated))
                      (lit "<PRE>") ([LF] ++ lit " 1000.0    100   15.2")
                      E H1 H2));
      vm_compute; reflexivity.
Defined.

Lemma extract_block_line_endings_witness :
  extract_block (to_crlf example_document_lf)
  = extract_block example_document_lf
  /\ extract_block (to_cr example_document_lf)
     = extract_block example_document_lf
  /\ extract_block (normalize_newlines example_document_lf)
     = extract_block example_document_lf.
Proof.
  apply (extract_block_line_endings example_document_lf).
  vm_compute; reflexivity.
Defined.

Lemma normalize_lines_idempotent_witness :
  normalize_lines (split_on LF (normalize_lines example_data [TAB])) [TAB]
  = normalize_lines example_data [TAB].
Proof.
  apply (normalize_lines_idempotent example_data [TAB]).
  right; reflexivity.
Defined.

Lemma normalize_lines_blank_input_witness :
  normalize_lines example_trail [COMMA] = [LF].
Proof.
  apply (proj1 (normalize_lines_blank_input example_trail [COMMA])).
  vm_compute; reflexivity.
Defined.

Lemma station_name_example_witness :
  extract_station_name decode_nothing example_heading_page (lit "15420")
  = lit "Bucuresti_Inmh-Banesa".
Proof.
  apply (fun Hun Hdoc =>
           proj1 (station_name_example decode_nothing example_heading_page
                    (lit "15420") Hun Hdoc)).
  - intros s _. reflexivity.
  - exact (heading_upper (lit "<HTML>") heading_example (lit "<PRE>")
             eq_refl eq_refl).
Defined.

Lemma station_name_no_heading_witness :
  extract_station_name decode_nothing (lit "<HTML></HTML>") (lit "15420")
  = lit "15420".
Proof.
  apply (proj2 (station_name_no_heading decode_nothing (lit "<HTML></HTML>")
                  (lit "15420") eq_refl)).
  vm_compute; reflexivity.
Defined.

(** C8 as stated fails: with no heading in the page, the station ID
    ["15 420"] comes back as ["15_420"]. *)
Lemma station_name_no_heading_changes_id :
  heading_found (lit "<HTML></HTML>") = false
  /\ extract_station_name decode_nothing (lit "<HTML></HTML>") (lit "15 420")
     = lit "15_420"
  /\ extract_station_name decode_nothing (lit "<HTML></HTML>") (lit "15 420")
     <> lit "15 420".
Proof.
  split; [reflexivity|]. split; [reflexivity|].
  vm_compute. discriminate.
Qed.

Lemma station_name_short_heading_witness :
  extract_station_name decode_nothing example_short_heading_page (lit "15420")
  = lit "X_Y".
Proof.
  apply (station_name_short_heading decode_nothing example_short_heading_page
           (lit "X Y") (lit "15420")).
  - exact (heading_lower (lit "<html>") (lit "X Y") (lit "</html>")
             eq_refl eq_refl eq_refl).
  - vm_compute. lia.
Defined.

Lemma extract_block_ok_inv_witness :
  exists pre body post : str,
    normalize_newlines example_document
    = pre ++ START_MARKER ++ body ++ END_MARKER ++ post
    /\ first_occurrence START_MARKER (normalize_newlines example_document)
         (length pre) = true
    /\ first_occurrence END_MARKER (body ++ END_MARKER ++ post) (length body)
       = true
    /\ example_data = pop_blank_back (pop_blank_front (split_on LF body))
    /\ edges_nonblank example_data = true.
Proof.
  apply (extract_block_ok_inv example_document example_data).
  vm_compute; reflexivity.
Defined.


Lemma extract_block_lines_no_newline_witness :
  Forall (fun l => mem_char l LF = false /\ mem_char l CR = false)
         example_data.
Proof.
  apply (extract_block_lines_no_newline example_document example_data).
  vm_compute; reflexivity.
Defined.

Lemma build_url_same_iff_witness :
  build_url decode_nothing (lit "15420")
    {| dt_year := 2025; dt_month := 11; dt_day := 2;
       dt_hour := 12; dt_minute := 0 |}
  = build_url decode_nothing (lit "15420")
      {| dt_year := 2025; dt_month := 11; dt_day := 2;
         dt_hour := 12; dt_minute := 30 |}.
Proof.
  apply (fun Hqp V1 V2 =>
           proj2 (build_url_same_iff decode_nothing (lit "15420")
                    {| dt_year := 2025; dt_month := 11; dt_day := 2;
                       dt_hour := 12; dt_minute := 0 |}
                    {| dt_year := 2025; dt_month := 11; dt_day := 2;
                       dt_hour := 12; dt_minute := 30 |} Hqp V1 V2)).
  - intros s _. reflexivity.
  - reflexivity.
  - reflexivity.
  - repeat split.
Defined.

Lemma parse_date_time_ok_witness :
  dt_minute example_when = 0%N /\ (dt_hour example_when <= 23)%N
  /\ exists (f : str) (d : datetime),
       In f date_formats /\ strptime_sample (lit "2025-11-02") f = inr d
       /\ dt_year example_when = dt_year d
       /\ dt_month example_when = dt_month d
       /\ dt_day example_when = dt_day d.
Proof.
  apply (parse_date_time_ok unit strptime_sample latin1_digits
           (lit "2025-11-02") (lit "12:30") example_when).
  vm_compute; reflexivity.
Defined.

Lemma parse_date_time_minutes_ignored_witness :
  parse_date_time strptime_sample latin1_digits (lit "2025-11-02")
    [49; 50; 57; 57]%N
  = parse_date_time strptime_sample latin1_digits (lit "2025-11-02")
      [49; 50]%N
  /\ parse_date_time strptime_sample latin1_digits (lit "2025-11-02")
       ([49; 50]%N ++ lit ":" ++ [57; 57]%N)
     = parse_date_time strptime_sample latin1_digits (lit "2025-11-02")
         [49; 50]%N.
Proof.
  apply (parse_date_time_minutes_ignored unit strptime_sample latin1_digits
           (lit "2025-11-02") 49%N 50%N 57%N 57%N 9%N 9%N); reflexivity.
Defined.

Lemma parse_date_time_format_error_witness :
  parse_date_time strptime_sample latin1_digits (lit "2025-11-02") (lit "930")
  = inl (TimeFormat (lit "930")).
Proof.
  apply (fun Hdate =>
           proj2 (parse_date_time_format_error unit strptime_sample
                    latin1_digits (lit "2025-11-02") (lit "930") Hdate)).
  - exists (lit "%Y-%m-%d"),
      {| dt_year := 2025; dt_month := 11; dt_day := 2;
         dt_hour := 0; dt_minute := 0 |}.
    split; [right; left; reflexivity | reflexivity].
  - reflexivity.
Defined.

Lemma date_parsers_agree_witness :
  exists d : datetime,
    parse_date_only strptime_sample date_sample (lit "2025-11-02")
    = inr (date_sample d)
    /\ dt_year example_when = dt_year d
    /\ dt_month example_when = dt_month d
    /\ dt_day example_when = dt_day d.
Proof.
  apply (fun Hex =>
           proj2 (date_parsers_agree unit (N * N * N) strptime_sample
                    date_sample latin1_digits (lit "2025-11-02") (lit "12"))
                 Hex example_when).
  - intros d1 d2 H1. vm_compute in H1. discriminate.
  - vm_compute; reflexivity.
Defined.

Lemma parse_hours_ok_witness :
  [0; 7; 12]%N <> [] /\ StronglySorted N.lt [0; 7; 12]%N
  /\ Forall (fun h => (h <= 23)%N) [0; 7; 12]%N
  /\ length [0; 7; 12]%N <= 24.
Proof.
  apply (parse_hours_ok latin1_digits (lit "12, 0 ,12,7") [0; 7; 12]%N).
  vm_compute; reflexivity.
Defined.

Lemma parse_hours_same_tokens_witness :
  parse_hours latin1_digits (join [COMMA] [lit " 0"; lit "12"; lit "12"])
  = inr [0; 12]%N.
Proof.
  apply (parse_hours_same_tokens latin1_digits
           [lit "12"; lit " 0"] [lit " 0"; lit "12"; lit "12"] [0; 12]%N).
  - discriminate.
  - discriminate.
  - reflexivity.
  - reflexivity.
  - intros t. simpl. tauto.
  - vm_compute; reflexivity.
Defined.

Lemma daterange_inclusive_witness :
  exists dates : list date,
    daterange 739192%Z 739194%Z = inr dates
    /\ length dates = Z.to_nat (739194 - 739192 + 1)
    /\ hd 0%Z dates = 739192%Z
    /\ last dates 0%Z = 739194%Z
    /\ StronglySorted Z.lt dates
    /\ forall d, In d dates <-> (739192 <= d <= 739194)%Z.
Proof.
  apply (proj2 (daterange_inclusive 739192%Z 739194%Z)). lia.
Defined.

Lemma batch_requests_chronological_witness :
  StronglySorted Z.lt
    (map when_hours
         (batch_whens [739192; 739193; 739194]%Z [0; 12]%N))
  /\ length (batch_whens [739192; 739193; 739194]%Z [0; 12]%N)
     = Z.to_nat (739194 - 739192 + 1) * length [0; 12]%N.
Proof.
  apply (batch_requests_chronological latin1_digits 739192%Z 739194%Z
           (lit "00,12") [739192; 739193; 739194]%Z [0; 12]%N);
    vm_compute; reflexivity.
Defined.

Lemma file_content_read_back_witness :
  parse_profiles float_sample
    (split_on LF (file_content example_data [TAB]))
  = parse_profiles float_sample example_data
  /\ parse_profiles float_sample
       (split_on LF (file_content example_data [COMMA]))
     = ([], [], []).
Proof.
  apply (file_content_read_back str float_sample example_data);
    reflexivity.
Defined.

Lemma header_block_matches_marker_witness :
  header_block [TAB]
  = BORDER ++ [LF]
    ++ normalize_lines (firstn 2 (skipn 1 (split_on LF START_MARKER))) [TAB]
    ++ BORDER ++ [LF].
Proof.
  apply (proj1 (header_block_matches_marker [TAB])). right; reflexivity.
Defined.

Lemma name_from_header_cases_witness :
  name_from_header (lit "15420 LRBS Observations at 00Z")
  = join [UNDERSCORE]
         (skipn 2 (split_ws (lit "15420 LRBS Observations at 00Z"))).
Proof.
  apply (fun Hlen =>
           proj2 (name_from_header_cases
                    (lit "15420 LRBS Observations at 00Z") Hlen)).
  - vm_compute. lia.
  - right. exists 2. split; [reflexivity | lia].
Defined.

